(** * Dompet Digital: the ledger state manager of [AppProvider]

    A shallow embedding of the mutation operations of the application
    context (the provider component holding the five persisted
    collections) and the ledger-consistency properties stated about them.

    Modelling conventions.
    - A JavaScript [number] holding an amount is a [Z] in the main
      development: whole rupiah, on which JavaScript arithmetic is exact
      as long as every value stays below 2^53.  What is proved there is
      stated operation by operation, as the code performs it.  Module
      [F64] embeds the same functions on binary64 numbers, for the
      statements that depend on how JavaScript rounds.
    - A date string is represented by the integer [new Date(d).getTime()]
      the comparator of [sort] computes from it.  A string that does not
      parse as a date has no such integer and is not represented: what is
      said about the order of the log is said of logs whose dates parse.
    - [crypto.randomUUID()] and [new Date()] are inputs of the operation
      that calls them ([uuid], [today]).
    - An optional field ([toAccountId?]) is an [option]; comparing a string
      with [undefined] by [===] is [false].
    - Every operation is a function on the [Store].  A value read from the
      closure of the render ([transactions], [investments], ...) is read
      from the store the operation starts from; an updater
      [setX(prev => ...)] is applied to the pending value of [X]. *)

From stdpp Require Import base decidable option list sorting strings.
From Stdlib Require Import ZArith Lia Floats.

Local Open Scope string_scope.
Local Open Scope Z_scope.

(** ** Data model

    Modelled from the spec: the declarations of [../types] (the enums
    TransactionType, TransactionSource, ReceivableStatus and the interfaces
    Account, Platform, Investment, Transaction, Receivable) are not among
    the sources; the fields are those of the data model of the
    specification and of the object literals of the provider. *)

Module TransactionType.
Inductive t := Income | Expense | Transfer.
#[global] Instance eq_dec : EqDecision t.
Proof. solve_decision. Defined.
End TransactionType.

Module TransactionSource.
Inductive t := Manual | Investment | Receivable.
#[global] Instance eq_dec : EqDecision t.
Proof. solve_decision. Defined.
End TransactionSource.

Module ReceivableStatus.
Inductive t := Unpaid | Paid.
#[global] Instance eq_dec : EqDecision t.
Proof. solve_decision. Defined.
End ReceivableStatus.

Module Account.
Record t := mk { id : string; name : string; type : string; balance : Z }.
#[global] Instance eq_dec : EqDecision t.
Proof. solve_decision. Defined.
End Account.

Module Platform.
Record t := mk { id : string; name : string }.
#[global] Instance eq_dec : EqDecision t.
Proof. solve_decision. Defined.
End Platform.

Module Investment.
Record t := mk {
  id : string; name : string; date : Z; accountId : string;
  platformId : string; initialValue : Z; currentValue : Z }.
#[global] Instance eq_dec : EqDecision t.
Proof. solve_decision. Defined.
End Investment.

Module Transaction.
Record t := mk {
  id : string; date : Z; type : TransactionType.t; accountId : string;
  toAccountId : option string; amount : Z; category : string;
  description : string; source : TransactionSource.t;
  linkedInvestmentId : option string; linkedReceivableId : option string }.
#[global] Instance eq_dec : EqDecision t.
Proof. solve_decision. Defined.
End Transaction.

Module Receivable.
Record t := mk {
  id : string; debtorName : string; amount : Z; dueDate : Z;
  accountId : string; status : ReceivableStatus.t }.
#[global] Instance eq_dec : EqDecision t.
Proof. solve_decision. Defined.
End Receivable.

(** The five collections held by the provider. *)
Record Store := mkStore {
  accounts : list Account.t;
  platforms : list Platform.t;
  investments : list Investment.t;
  transactions : list Transaction.t;
  receivables : list Receivable.t }.

#[global] Instance Store_eq_dec : EqDecision Store.
Proof. solve_decision. Defined.

(** The initial value of every [useLocalStorage] cell. *)
Definition emptyStore : Store := mkStore [] [] [] [] [].

(** The reserved category of the opening-balance entry. *)
Definition SaldoAwal : string := "Saldo Awal".

(** ** Array helpers *)

(** [Array.prototype.find]: the first element satisfying [P]. *)
Definition find {A} (P : A → Prop) `{!∀ x, Decision (P x)} (l : list A) : option A :=
  snd <$> list_find P l.

(** [Array.prototype.findIndex]; [None] stands for [-1]. *)
Definition findIndex {A} (P : A → Prop) `{!∀ x, Decision (P x)} (l : list A) : option nat :=
  fst <$> list_find P l.

(** [Array.prototype.some]. *)
Definition some {A} (P : A → Prop) `{!∀ x, Decision (P x)} (l : list A) : bool :=
  bool_decide (Exists P l).

(** [[...].sort((a, b) => new Date(b.date).getTime() - new Date(a.date).getTime())]:
    newest first for dates that parse; the sort is stable, so equal dates
    keep their order. *)
Fixpoint insertTx (x : Transaction.t) (l : list Transaction.t) : list Transaction.t :=
  match l with
  | [] => [x]
  | y :: l' =>
      if Z.ltb (Transaction.date x) (Transaction.date y)
      then y :: insertTx x l'
      else x :: y :: l'
  end.

Fixpoint sortTx (l : list Transaction.t) : list Transaction.t :=
  match l with
  | [] => []
  | x :: l' => insertTx x (sortTx l')
  end.

(** ** Record updates ([{ ...r, f: v }]) *)

Definition setBalance (acc : Account.t) (b : Z) : Account.t :=
  Account.mk (Account.id acc) (Account.name acc) (Account.type acc) b.

Definition setAmount (t : Transaction.t) (a : Z) : Transaction.t :=
  Transaction.mk (Transaction.id t) (Transaction.date t) (Transaction.type t)
    (Transaction.accountId t) (Transaction.toAccountId t) a
    (Transaction.category t) (Transaction.description t) (Transaction.source t)
    (Transaction.linkedInvestmentId t) (Transaction.linkedReceivableId t).

Definition setTxId (t : Transaction.t) (i : string) : Transaction.t :=
  Transaction.mk i (Transaction.date t) (Transaction.type t)
    (Transaction.accountId t) (Transaction.toAccountId t) (Transaction.amount t)
    (Transaction.category t) (Transaction.description t) (Transaction.source t)
    (Transaction.linkedInvestmentId t) (Transaction.linkedReceivableId t).

Definition setStatus (r : Receivable.t) (st : ReceivableStatus.t) : Receivable.t :=
  Receivable.mk (Receivable.id r) (Receivable.debtorName r) (Receivable.amount r)
    (Receivable.dueDate r) (Receivable.accountId r) st.

(** Modelled from the spec: the setters returned by [useLocalStorage]
    (the hook is not among the sources).  The store is process-wide and
    the effects of a mutation are fully visible before the next begins;
    within one operation a setter replaces the pending value of its
    collection, and an updater function receives that pending value. *)
Definition setAccounts (s : Store) (v : list Account.t) : Store :=
  mkStore v (platforms s) (investments s) (transactions s) (receivables s).
Definition setPlatforms (s : Store) (v : list Platform.t) : Store :=
  mkStore (accounts s) v (investments s) (transactions s) (receivables s).
Definition setInvestments (s : Store) (v : list Investment.t) : Store :=
  mkStore (accounts s) (platforms s) v (transactions s) (receivables s).
Definition setTransactions (s : Store) (v : list Transaction.t) : Store :=
  mkStore (accounts s) (platforms s) (investments s) v (receivables s).
Definition setReceivables (s : Store) (v : list Receivable.t) : Store :=
  mkStore (accounts s) (platforms s) (investments s) (transactions s) v.

(** ** Operations *)

(** The body of the [map] in [addTransaction]: the balance patch of one
    account.  The first [if] returns before the destination leg is looked
    at.  Each [+] and [-] stands for the one the code performs; what
    depends on their rounding is stated over [F64.applyTransaction]. *)
Definition applyTransaction (newTransaction : Transaction.t) (acc : Account.t) : Account.t :=
  if bool_decide (Account.id acc = Transaction.accountId newTransaction) then
    match Transaction.type newTransaction with
    | TransactionType.Income =>
        setBalance acc (Account.balance acc + Transaction.amount newTransaction)
    | TransactionType.Expense | TransactionType.Transfer =>
        setBalance acc (Account.balance acc - Transaction.amount newTransaction)
    end
  else if bool_decide (Some (Account.id acc) = Transaction.toAccountId newTransaction
                       ∧ Transaction.type newTransaction = TransactionType.Transfer) then
    setBalance acc (Account.balance acc + Transaction.amount newTransaction)
  else acc.

Definition addTransaction (s : Store) (uuid : string) (transaction : Transaction.t) : Store :=
  let newTransaction := setTxId transaction uuid in
  let s1 := setTransactions s (sortTx (newTransaction :: transactions s)) in
  setAccounts s1 (applyTransaction newTransaction <$> accounts s1).

Definition addAccount (s : Store) (uuid txUuid : string) (today : Z)
    (account : Account.t) (initialBalance : Z) : Store :=
  let newAccount := Account.mk uuid (Account.name account) (Account.type account) 0 in
  let s1 := setAccounts s (accounts s ++ [newAccount]) in
  if bool_decide (initialBalance ≠ 0) then
    addTransaction s1 txUuid
      (Transaction.mk "" today TransactionType.Income (Account.id newAccount)
         None initialBalance SaldoAwal
         ("Saldo awal untuk rekening " +:+ Account.name newAccount)
         TransactionSource.Manual None None)
  else s1.

(** The predicate of the [findIndex] of [updateAccount] and of the [find]
    of [deleteReceivable]. *)
Definition isInitialTx (id : string) (t : Transaction.t) : Prop :=
  Transaction.accountId t = id ∧ Transaction.category t = SaldoAwal.

#[global] Instance isInitialTx_dec id t : Decision (isInitialTx id t).
Proof. unfold isInitialTx. apply _. Defined.

Definition updateAccount (s : Store) (txUuid : string) (today : Z)
    (updatedAccountData : Account.t) (newInitialBalance : Z) : Store :=
  let initialTxIndex :=
    findIndex (isInitialTx (Account.id updatedAccountData)) (transactions s) in
  let oldInitialBalance :=
    match initialTxIndex with
    | Some i => from_option Transaction.amount 0 (transactions s !! i)
    | None => 0
    end in
  let balanceDifference := newInitialBalance - oldInitialBalance in
  let newTxs :=
    match initialTxIndex with
    | Some i =>
        if bool_decide (newInitialBalance = 0) then delete i (transactions s)
        else alter (λ t, setAmount t newInitialBalance) i (transactions s)
    | None =>
        if bool_decide (newInitialBalance ≠ 0) then
          Transaction.mk txUuid today TransactionType.Income
            (Account.id updatedAccountData) None newInitialBalance SaldoAwal
            ("Saldo awal untuk rekening " +:+ Account.name updatedAccountData)
            TransactionSource.Manual None None :: transactions s
        else transactions s
    end in
  let s1 := setTransactions s (sortTx newTxs) in
  setAccounts s1
    ((λ acc,
        if bool_decide (Account.id acc = Account.id updatedAccountData) then
          Account.mk (Account.id acc) (Account.name updatedAccountData)
            (Account.type updatedAccountData)
            (Account.balance acc + balanceDifference)
        else acc) <$> accounts s1).

Definition isAccountInUse (s : Store) (id : string) : bool :=
  let isUsedInNonInitialTx :=
    some (λ t, (Transaction.accountId t = id ∨ Transaction.toAccountId t = Some id)
               ∧ Transaction.category t ≠ SaldoAwal) (transactions s) in
  isUsedInNonInitialTx || some (λ i, Investment.accountId i = id) (investments s).

Definition deleteAccount (s : Store) (id : string) : Store :=
  if isAccountInUse s id then s
  else
    let s1 := setAccounts s (filter (λ acc, Account.id acc ≠ id) (accounts s)) in
    setTransactions s1 (filter (λ t, ¬ isInitialTx id t) (transactions s1)).

Definition getAccount (s : Store) (id : string) : option Account.t :=
  find (λ a, Account.id a = id) (accounts s).

Definition addPlatform (s : Store) (uuid : string) (platform : Platform.t) : Store :=
  setPlatforms s (platforms s ++ [Platform.mk uuid (Platform.name platform)]).

Definition updatePlatform (s : Store) (updatedPlatform : Platform.t) : Store :=
  setPlatforms s
    ((λ p, if bool_decide (Platform.id p = Platform.id updatedPlatform)
           then updatedPlatform else p) <$> platforms s).

Definition isPlatformInUse (s : Store) (id : string) : bool :=
  some (λ i, Investment.platformId i = id) (investments s).

Definition deletePlatform (s : Store) (id : string) : Store :=
  if isPlatformInUse s id then s
  else setPlatforms s (filter (λ p, Platform.id p ≠ id) (platforms s)).

Definition getPlatform (s : Store) (id : string) : option Platform.t :=
  find (λ p, Platform.id p = id) (platforms s).

Definition addInvestment (s : Store) (uuid txUuid : string)
    (investment : Investment.t) : Store :=
  let newInvestment :=
    Investment.mk uuid (Investment.name investment) (Investment.date investment)
      (Investment.accountId investment) (Investment.platformId investment)
      (Investment.initialValue investment) (Investment.currentValue investment) in
  let s1 := setInvestments s (investments s ++ [newInvestment]) in
  addTransaction s1 txUuid
    (Transaction.mk "" (Investment.date investment) TransactionType.Expense
       (Investment.accountId investment) None (Investment.initialValue investment)
       "Investasi" ("Modal awal investasi " +:+ Investment.name investment)
       TransactionSource.Investment (Some (Investment.id newInvestment)) None).

Definition updateInvestment (s : Store) (updatedInvestment : Investment.t) : Store :=
  setInvestments s
    ((λ inv,
        if bool_decide (Investment.id inv = Investment.id updatedInvestment) then
          Investment.mk (Investment.id inv) (Investment.name updatedInvestment)
            (Investment.date updatedInvestment) (Investment.accountId inv)
            (Investment.platformId updatedInvestment)
            (Investment.initialValue inv) (Investment.currentValue inv)
        else inv) <$> investments s).

Definition updateInvestmentValue (s : Store) (id : string) (newValue : Z) : Store :=
  setInvestments s
    ((λ inv,
        if bool_decide (Investment.id inv = id) then
          Investment.mk (Investment.id inv) (Investment.name inv) (Investment.date inv)
            (Investment.accountId inv) (Investment.platformId inv)
            (Investment.initialValue inv) newValue
        else inv) <$> investments s).

(** The predicate negated by the last [filter] of [deleteInvestment]. *)
Definition isLinkedInvestmentTx (id : string) (t : Transaction.t) : Prop :=
  Transaction.linkedInvestmentId t = Some id
  ∧ Transaction.source t = TransactionSource.Investment.

#[global] Instance isLinkedInvestmentTx_dec id t : Decision (isLinkedInvestmentTx id t).
Proof. unfold isLinkedInvestmentTx. apply _. Defined.

(** The refund [deleteInvestment] hands to [addTransaction]. *)
Definition refundTx (today : Z) (id : string) (investmentToDelete : Investment.t)
    : Transaction.t :=
  Transaction.mk "" today TransactionType.Income
    (Investment.accountId investmentToDelete) None
    (Investment.initialValue investmentToDelete) "Pengembalian Investasi"
    ("Pengembalian modal investasi " +:+ Investment.name investmentToDelete)
    TransactionSource.Investment (Some id) None.

Definition deleteInvestment (s : Store) (txUuid : string) (today : Z)
    (id : string) : Store :=
  match find (λ inv, Investment.id inv = id) (investments s) with
  | None => s
  | Some investmentToDelete =>
      let s1 := addTransaction s txUuid (refundTx today id investmentToDelete) in
      let s2 := setInvestments s1
                  (filter (λ inv, Investment.id inv ≠ id) (investments s1)) in
      setTransactions s2
        (filter (λ t, ¬ isLinkedInvestmentTx id t) (transactions s2))
  end.

Definition addReceivable (s : Store) (uuid txUuid : string) (today : Z)
    (receivable : Receivable.t) : Store :=
  let newReceivable := setStatus
    (Receivable.mk uuid (Receivable.debtorName receivable)
       (Receivable.amount receivable) (Receivable.dueDate receivable)
       (Receivable.accountId receivable) (Receivable.status receivable))
    ReceivableStatus.Unpaid in
  let s1 := setReceivables s (receivables s ++ [newReceivable]) in
  addTransaction s1 txUuid
    (Transaction.mk "" today TransactionType.Expense
       (Receivable.accountId newReceivable) None (Receivable.amount newReceivable)
       "Piutang" ("Piutang kepada " +:+ Receivable.debtorName newReceivable)
       TransactionSource.Receivable None (Some (Receivable.id newReceivable))).

Definition updateReceivable (s : Store) (updatedReceivable : Receivable.t) : Store :=
  setReceivables s
    ((λ r,
        if bool_decide (Receivable.id r = Receivable.id updatedReceivable) then
          Receivable.mk (Receivable.id r) (Receivable.debtorName updatedReceivable)
            (Receivable.amount r) (Receivable.dueDate updatedReceivable)
            (Receivable.accountId r) (Receivable.status r)
        else r) <$> receivables s).

(** One step of the [forEach] of [deleteReceivable] on [newBalance]. *)
Definition replayStep (accountId : string) (newBalance : Z) (t : Transaction.t) : Z :=
  let b1 :=
    if bool_decide (Transaction.accountId t = accountId) then
      match Transaction.type t with
      | TransactionType.Income => newBalance + Transaction.amount t
      | TransactionType.Expense | TransactionType.Transfer =>
          newBalance - Transaction.amount t
      end
    else newBalance in
  if bool_decide (Transaction.toAccountId t = Some accountId
                  ∧ Transaction.type t = TransactionType.Transfer)
  then b1 + Transaction.amount t else b1.

(** The balance [deleteReceivable] recomputes for one account: the amount
    of the first opening-balance entry, then the other entries replayed in
    the order of the log. *)
Definition recomputeBalance (newTransactions : list Transaction.t)
    (accountId : string) : Z :=
  let initialBalanceTx := find (isInitialTx accountId) newTransactions in
  let newBalance := from_option Transaction.amount 0 initialBalanceTx in
  fold_left (replayStep accountId)
    (filter (λ t, Transaction.category t ≠ SaldoAwal) newTransactions) newBalance.

Definition deleteReceivable (s : Store) (id : string) : Store :=
  let newReceivables := filter (λ r, Receivable.id r ≠ id) (receivables s) in
  let newTransactions :=
    filter (λ t, Transaction.linkedReceivableId t ≠ Some id) (transactions s) in
  let newAccounts :=
    (λ account, setBalance account (recomputeBalance newTransactions (Account.id account)))
      <$> accounts s in
  setAccounts
    (setTransactions (setReceivables s newReceivables) (sortTx newTransactions))
    newAccounts.

(** The transaction [markReceivableAsPaid] hands to [addTransaction]. *)
Definition paymentTx (today : Z) (id accountId : string) (receivable : Receivable.t)
    : Transaction.t :=
  Transaction.mk "" today TransactionType.Income accountId None
    (Receivable.amount receivable) "Piutang"
    ("Pembayaran piutang dari " +:+ Receivable.debtorName receivable)
    TransactionSource.Receivable None (Some id).

Definition markReceivableAsPaid (s : Store) (txUuid : string) (today : Z)
    (id accountId : string) : Store :=
  match find (λ r, Receivable.id r = id) (receivables s) with
  | None => s
  | Some receivable =>
      let s1 := setReceivables s
        ((λ r, if bool_decide (Receivable.id r = id)
               then setStatus r ReceivableStatus.Paid else r) <$> receivables s) in
      addTransaction s1 txUuid (paymentTx today id accountId receivable)
  end.

(** ** Sequences of operations *)

(** One call of the presentation-facing API, with the identifiers and the
    date the call draws from its collaborators. *)
Inductive Op :=
| OpAddTransaction (uuid : string) (transaction : Transaction.t)
| OpAddAccount (uuid txUuid : string) (today : Z) (account : Account.t) (initialBalance : Z)
| OpUpdateAccount (txUuid : string) (today : Z) (account : Account.t) (newInitialBalance : Z)
| OpDeleteAccount (id : string)
| OpAddPlatform (uuid : string) (platform : Platform.t)
| OpUpdatePlatform (platform : Platform.t)
| OpDeletePlatform (id : string)
| OpAddInvestment (uuid txUuid : string) (investment : Investment.t)
| OpUpdateInvestment (investment : Investment.t)
| OpUpdateInvestmentValue (id : string) (newValue : Z)
| OpDeleteInvestment (txUuid : string) (today : Z) (id : string)
| OpAddReceivable (uuid txUuid : string) (today : Z) (receivable : Receivable.t)
| OpUpdateReceivable (receivable : Receivable.t)
| OpDeleteReceivable (id : string)
| OpMarkReceivableAsPaid (txUuid : string) (today : Z) (id accountId : string).

Definition runOp (s : Store) (o : Op) : Store :=
  match o with
  | OpAddTransaction uuid tx => addTransaction s uuid tx
  | OpAddAccount uuid txUuid today acc b => addAccount s uuid txUuid today acc b
  | OpUpdateAccount txUuid today acc b => updateAccount s txUuid today acc b
  | OpDeleteAccount id => deleteAccount s id
  | OpAddPlatform uuid p => addPlatform s uuid p
  | OpUpdatePlatform p => updatePlatform s p
  | OpDeletePlatform id => deletePlatform s id
  | OpAddInvestment uuid txUuid inv => addInvestment s uuid txUuid inv
  | OpUpdateInvestment inv => updateInvestment s inv
  | OpUpdateInvestmentValue id v => updateInvestmentValue s id v
  | OpDeleteInvestment txUuid today id => deleteInvestment s txUuid today id
  | OpAddReceivable uuid txUuid today r => addReceivable s uuid txUuid today r
  | OpUpdateReceivable r => updateReceivable s r
  | OpDeleteReceivable id => deleteReceivable s id
  | OpMarkReceivableAsPaid txUuid today id accountId =>
      markReceivableAsPaid s txUuid today id accountId
  end.

(** What the identifier generator guarantees about the identifier of a new
    account or investment: nothing in the store carries it yet. *)
Definition freshAccountId (s : Store) (uuid : string) : Prop :=
  Forall (λ acc, Account.id acc ≠ uuid) (accounts s)
  ∧ Forall (λ t, Transaction.accountId t ≠ uuid ∧ Transaction.toAccountId t ≠ Some uuid)
           (transactions s).

Definition freshInvestmentId (s : Store) (uuid : string) : Prop :=
  Forall (λ inv, Investment.id inv ≠ uuid) (investments s)
  ∧ Forall (λ t, Transaction.linkedInvestmentId t ≠ Some uuid) (transactions s).

Definition freshOp (s : Store) (o : Op) : Prop :=
  match o with
  | OpAddAccount uuid _ _ _ _ => freshAccountId s uuid
  | OpAddInvestment uuid _ _ => freshInvestmentId s uuid
  | _ => True
  end.

#[global] Instance freshOp_dec s o : Decision (freshOp s o).
Proof. destruct o; unfold freshOp, freshAccountId, freshInvestmentId; apply _. Defined.

(** The stores reached from the empty store by API calls whose
    caller-supplied transactions (the argument of a direct
    [addTransaction]) satisfy [allowed]. *)
Inductive reachable (allowed : Transaction.t → Prop) : Store → Prop :=
| reachable_empty : reachable allowed emptyStore
| reachable_step s o :
    reachable allowed s →
    freshOp s o →
    (∀ uuid tx, o = OpAddTransaction uuid tx → allowed tx) →
    reachable allowed (runOp s o).

(** Any caller-supplied transaction whatsoever. *)
Definition anyTx (tx : Transaction.t) : Prop := True.

(** A caller-supplied transaction that stays clear of what the manager
    reserves for itself: it is not tagged as generated for an investment,
    its category is not the reserved one, and if it is a transfer its
    destination is not its source account.  The transaction form only
    submits such transactions, up to the free-text category. *)
Definition plainTx (tx : Transaction.t) : Prop :=
  Transaction.source tx ≠ TransactionSource.Investment
  ∧ Transaction.category tx ≠ SaldoAwal
  ∧ (Transaction.type tx = TransactionType.Transfer →
     Transaction.toAccountId tx ≠ Some (Transaction.accountId tx)).

(** A finite sequence of API calls, run from [s]. *)
Fixpoint runOps (s : Store) (ops : list Op) : Store :=
  match ops with
  | [] => s
  | o :: ops => runOps (runOp s o) ops
  end.

(** The calls of a sequence draw fresh identifiers and pass allowed
    transactions. *)
Fixpoint validRun (allowed : Transaction.t → Prop) (s : Store) (ops : list Op) : Prop :=
  match ops with
  | [] => True
  | o :: ops =>
      freshOp s o
      ∧ (∀ uuid tx, o = OpAddTransaction uuid tx → allowed tx)
      ∧ validRun allowed (runOp s o) ops
  end.

(** ** The ledger properties, as the specification words them *)

(** The signed effect of one transaction on the account [a]. *)
Definition effect (a : string) (t : Transaction.t) : Z :=
  (if bool_decide (Transaction.accountId t = a) then
     match Transaction.type t with
     | TransactionType.Income => Transaction.amount t
     | TransactionType.Expense | TransactionType.Transfer => - Transaction.amount t
     end
   else 0)
  + (if bool_decide (Transaction.toAccountId t = Some a
                     ∧ Transaction.type t = TransactionType.Transfer)
     then Transaction.amount t else 0).

(** The sum over the log of a quantity [f] of each transaction. *)
Definition sumBy (f : Transaction.t → Z) (log : list Transaction.t) : Z :=
  foldr (λ t acc, f t + acc) 0 log.

(** The signed sum over the log of the transactions referencing [a]. *)
Definition signedSum (a : string) (log : list Transaction.t) : Z :=
  sumBy (effect a) log.

(** Invariant 1: every cached balance equals the signed sum. *)
Definition balancesConsistent (s : Store) : Prop :=
  Forall (λ acc, Account.balance acc = signedSum (Account.id acc) (transactions s))
         (accounts s).

#[global] Instance balancesConsistent_dec s : Decision (balancesConsistent s).
Proof. unfold balancesConsistent. apply _. Defined.

(** Invariant 5: at most one opening-balance entry per account. *)
Definition oneInitialTx (s : Store) : Prop :=
  ∀ a, (length (filter (isInitialTx a) (transactions s)) ≤ 1)%nat.

(** The log is ordered newest first. *)
Definition newestFirst (log : list Transaction.t) : Prop :=
  StronglySorted (λ x y, Transaction.date y ≤ Transaction.date x) log.

(** ** Auxiliary invariants of the reachable stores *)

(** An opening-balance entry is a manual income. *)
Definition initialTxsIncome (log : list Transaction.t) : Prop :=
  Forall (λ t, Transaction.category t = SaldoAwal →
               Transaction.type t = TransactionType.Income
               ∧ Transaction.source t = TransactionSource.Manual) log.

(** A transaction generated for an investment carries no receivable link. *)
Definition investmentTxsUnlinked (log : list Transaction.t) : Prop :=
  Forall (λ t, Transaction.source t = TransactionSource.Investment →
               Transaction.linkedReceivableId t = None) log.

(** The effect on [a] of a transaction if it is linked to the investment
    [id], and nothing otherwise. *)
Definition linkedEffect (id a : string) (t : Transaction.t) : Z :=
  if decide (isLinkedInvestmentTx id t) then effect a t else 0.

(** The transactions linked to a stored investment amount to its capital
    outflow: [initialValue] out of its funding account. *)
Definition investmentsBacked (s : Store) : Prop :=
  Forall (λ inv, ∀ a,
            sumBy (linkedEffect (Investment.id inv) a) (transactions s)
            = if bool_decide (Investment.accountId inv = a)
              then - Investment.initialValue inv else 0)
         (investments s).

Record ledgerInv (s : Store) : Prop := mkLedgerInv {
  inv_oneInitial : oneInitialTx s;
  inv_initialIncome : initialTxsIncome (transactions s);
  inv_unlinked : investmentTxsUnlinked (transactions s);
  inv_backed : investmentsBacked s }.

(** The shape of the transactions the operations synthesise themselves:
    an opening balance, the entries of a receivable, the capital outflow
    of an investment. *)
Definition generatedTx (t : Transaction.t) : Prop :=
  (Transaction.category t = SaldoAwal
   ∧ Transaction.type t = TransactionType.Income
   ∧ Transaction.source t = TransactionSource.Manual)
  ∨ (Transaction.category t ≠ SaldoAwal
     ∧ Transaction.source t = TransactionSource.Receivable)
  ∨ (Transaction.category t ≠ SaldoAwal
     ∧ Transaction.source t = TransactionSource.Investment
     ∧ Transaction.linkedReceivableId t = None).

(** ** The dashboard figures

    The totals of [stats] that the dashboard page computes from the
    accounts, the investments and the receivables. *)

(** [l.reduce((sum, x) => sum + f(x), 0)], the summands added in the
    order of the list. *)
Definition reduceSum {A} (f : A → Z) (l : list A) : Z :=
  foldl (λ sum x, sum + f x) 0 l.

Definition totalAccountBalance (s : Store) : Z :=
  reduceSum Account.balance (accounts s).

Definition totalInvestmentValue (s : Store) : Z :=
  reduceSum Investment.currentValue (investments s).

Definition totalUnpaidReceivables (s : Store) : Z :=
  reduceSum Receivable.amount
    (filter (λ r, Receivable.status r = ReceivableStatus.Unpaid) (receivables s)).

Definition totalWealth (s : Store) : Z :=
  totalAccountBalance s + totalInvestmentValue s + totalUnpaidReceivables s.

Definition investmentProfitLoss (s : Store) : Z :=
  reduceSum (λ inv, Investment.currentValue inv - Investment.initialValue inv)
    (investments s).

(** The argument [handleSave] of the transactions page hands to
    [addTransaction]: the form data with the source set to Manual. *)
Definition handleSave (s : Store) (uuid : string) (transactionData : Transaction.t) : Store :=
  addTransaction s uuid
    (Transaction.mk (Transaction.id transactionData) (Transaction.date transactionData)
       (Transaction.type transactionData) (Transaction.accountId transactionData)
       (Transaction.toAccountId transactionData) (Transaction.amount transactionData)
       (Transaction.category transactionData) (Transaction.description transactionData)
       TransactionSource.Manual
       (Transaction.linkedInvestmentId transactionData)
       (Transaction.linkedReceivableId transactionData)).

(** ** The operations on binary64 numbers

    The same source functions with amounts and balances as JavaScript
    holds them: IEEE 754 binary64, added and subtracted with rounding to
    nearest.  Dates, identifiers and the other fields are as in the main
    development. *)

Module F64.

Module Account.
Record t := mk { id : string; name : string; type : string; balance : float }.
End Account.

Module Investment.
Record t := mk {
  id : string; name : string; date : Z; accountId : string;
  platformId : string; initialValue : float; currentValue : float }.
End Investment.

Module Transaction.
Record t := mk {
  id : string; date : Z; type : TransactionType.t; accountId : string;
  toAccountId : option string; amount : float; category : string;
  description : string; source : TransactionSource.t;
  linkedInvestmentId : option string; linkedReceivableId : option string }.
End Transaction.

Module Receivable.
Record t := mk {
  id : string; debtorName : string; amount : float; dueDate : Z;
  accountId : string; status : ReceivableStatus.t }.
End Receivable.

Record Store := mkStore {
  accounts : list Account.t;
  platforms : list Platform.t;
  investments : list Investment.t;
  transactions : list Transaction.t;
  receivables : list Receivable.t }.

(** The sort of the log, newest first and stable. *)
Fixpoint insertTx (x : Transaction.t) (l : list Transaction.t) : list Transaction.t :=
  match l with
  | [] => [x]
  | y :: l' =>
      if Z.ltb (Transaction.date x) (Transaction.date y)
      then y :: insertTx x l'
      else x :: y :: l'
  end.

Fixpoint sortTx (l : list Transaction.t) : list Transaction.t :=
  match l with
  | [] => []
  | x :: l' => insertTx x (sortTx l')
  end.

(** The body of the [map] in [addTransaction]. *)
Definition applyTransaction (newTransaction : Transaction.t) (acc : Account.t) : Account.t :=
  if bool_decide (Account.id acc = Transaction.accountId newTransaction) then
    match Transaction.type newTransaction with
    | TransactionType.Income =>
        Account.mk (Account.id acc) (Account.name acc) (Account.type acc)
          (PrimFloat.add (Account.balance acc) (Transaction.amount newTransaction))
    | TransactionType.Expense | TransactionType.Transfer =>
        Account.mk (Account.id acc) (Account.name acc) (Account.type acc)
          (PrimFloat.sub (Account.balance acc) (Transaction.amount newTransaction))
    end
  else if bool_decide (Some (Account.id acc) = Transaction.toAccountId newTransaction
                       ∧ Transaction.type newTransaction = TransactionType.Transfer) then
    Account.mk (Account.id acc) (Account.name acc) (Account.type acc)
      (PrimFloat.add (Account.balance acc) (Transaction.amount newTransaction))
  else acc.

Definition addTransaction (s : Store) (uuid : string) (transaction : Transaction.t) : Store :=
  let newTransaction :=
    Transaction.mk uuid (Transaction.date transaction) (Transaction.type transaction)
      (Transaction.accountId transaction) (Transaction.toAccountId transaction)
      (Transaction.amount transaction) (Transaction.category transaction)
      (Transaction.description transaction) (Transaction.source transaction)
      (Transaction.linkedInvestmentId transaction)
      (Transaction.linkedReceivableId transaction) in
  mkStore (applyTransaction newTransaction <$> accounts s) (platforms s)
    (investments s) (sortTx (newTransaction :: transactions s)) (receivables s).

Definition getAccount (s : Store) (id : string) : option Account.t :=
  find (λ a, Account.id a = id) (accounts s).

Definition addInvestment (s : Store) (uuid txUuid : string)
    (investment : Investment.t) : Store :=
  let newInvestment :=
    Investment.mk uuid (Investment.name investment) (Investment.date investment)
      (Investment.accountId investment) (Investment.platformId investment)
      (Investment.initialValue investment) (Investment.currentValue investment) in
  let s1 := mkStore (accounts s) (platforms s) (investments s ++ [newInvestment])
              (transactions s) (receivables s) in
  addTransaction s1 txUuid
    (Transaction.mk "" (Investment.date investment) TransactionType.Expense
       (Investment.accountId investment) None (Investment.initialValue investment)
       "Investasi" ("Modal awal investasi " +:+ Investment.name investment)
       TransactionSource.Investment (Some (Investment.id newInvestment)) None).

Definition deleteInvestment (s : Store) (txUuid : string) (today : Z)
    (id : string) : Store :=
  match find (λ inv, Investment.id inv = id) (investments s) with
  | None => s
  | Some investmentToDelete =>
      let s1 := addTransaction s txUuid
        (Transaction.mk "" today TransactionType.Income
           (Investment.accountId investmentToDelete) None
           (Investment.initialValue investmentToDelete) "Pengembalian Investasi"
           ("Pengembalian modal investasi " +:+ Investment.name investmentToDelete)
           TransactionSource.Investment (Some id) None) in
      mkStore (accounts s1) (platforms s1)
        (filter (λ inv, Investment.id inv ≠ id) (investments s1))
        (filter (λ t, ¬ (Transaction.linkedInvestmentId t = Some id
                         ∧ Transaction.source t = TransactionSource.Investment))
                (transactions s1))
        (receivables s1)
  end.

(** Test inputs: two accounts holding 500 and 40; an account holding 0
    beside one holding 2^53; one account holding 1. *)
Definition twoAccounts : Store :=
  mkStore [Account.mk "a1" "Bank" "Bank" 500; Account.mk "a2" "Tunai" "Cash" 40]
    [] [] [] [].
Definition small : Store := mkStore [Account.mk "a1" "Bank" "Bank" 1] [] [] [] [].
Definition saham (initialValue : float) : Investment.t :=
  Investment.mk "" "Saham" 3 "a1" "p1" initialValue initialValue.

End F64.

(** ** Concrete stores used as test inputs *)

Module Sample.
Definition bank : Account.t := Account.mk "" "Bank" "Bank" 0.
Definition cash : Account.t := Account.mk "" "Tunai" "Cash" 0.
Definition saham : Investment.t := Investment.mk "" "Saham" 3 "a1" "p1" 1000 1200.
Definition budi : Receivable.t :=
  Receivable.mk "" "Budi" 200 30 "a1" ReceivableStatus.Unpaid.
Definition manual (ty : TransactionType.t) (from : string) (to : option string)
    (amount : Z) (category : string) : Transaction.t :=
  Transaction.mk "" 12 ty from to amount category "" TransactionSource.Manual None None.

(** One account opened with 500. *)
Definition opened : Store := addAccount emptyStore "a1" "t1" 10 bank 500.
(** Two accounts, opened with 500 and 40. *)
Definition twoAccounts : Store := addAccount opened "a2" "t2" 10 cash 40.
(** One account and an investment of 1000 funded from it. *)
Definition invested : Store := addInvestment opened "i1" "t3" saham.
(** One account and a receivable of 200 that has been paid back. *)
Definition paid : Store :=
  markReceivableAsPaid (addReceivable opened "r1" "t4" 11 budi) "t5" 12 "r1" "a1".

(** A run through accounts, a transfer, an investment made and withdrawn,
    a receivable lent, paid back and deleted, and an edited opening
    balance. *)
Definition busyOps : list Op :=
  [ OpAddAccount "a1" "t1" 10 bank 500;
    OpAddAccount "a2" "t2" 10 cash 40;
    OpAddTransaction "t3" (manual TransactionType.Transfer "a1" (Some "a2") 100 "Transfer");
    OpAddInvestment "i1" "t4" saham;
    OpAddReceivable "r1" "t5" 11 budi;
    OpMarkReceivableAsPaid "t6" 12 "r1" "a2";
    OpUpdateAccount "t7" 12 (Account.mk "a2" "Dompet" "Cash" 0) 75;
    OpDeleteInvestment "t8" 13 "i1";
    OpDeleteReceivable "r1";
    OpAddTransaction "t9" (manual TransactionType.Expense "a2" None 15 "Makanan") ].
Definition busy : Store := runOps emptyStore busyOps.
End Sample.

(** Further test inputs. *)
Module Scenario.
(** One account, one platform, an investment on it worth more than it cost. *)
Definition withPlatform : Store :=
  addInvestment (addPlatform Sample.opened "p1" (Platform.mk "" "Bibit")) "i1" "t3"
    Sample.saham.
(** One account and an unpaid receivable of 200 lent from it. *)
Definition lent : Store := addReceivable Sample.opened "r1" "t4" 11 Sample.budi.
End Scenario.

(** Discharges [validRun] on a concrete sequence of calls. *)
Ltac valid_run :=
  cbn [validRun];
  repeat match goal with
    | |- _ ∧ _ => split
    | |- True => exact I
    | |- freshOp _ _ => vm_compute; try split; by repeat constructor
    | |- ∀ uuid tx, _ = OpAddTransaction uuid tx → _ =>
        let Hop := fresh "Hop" in
        intros ? ? Hop; first [discriminate Hop | injection Hop as <- <-; by vm_compute]
    end.

(** ** Lists: [find], [sort], sums *)

Section ListFacts.
Context {A : Type}.
Implicit Types l : list A.

Lemma find_None (P : A → Prop) `{!∀ x, Decision (P x)} l :
  find P l = None ↔ Forall (λ x, ¬ P x) l.
Proof.
  unfold find. rewrite fmap_None. apply list_find_None.
Qed.

Lemma find_Some_elem (P : A → Prop) `{!∀ x, Decision (P x)} l x :
  find P l = Some x → x ∈ l ∧ P x.
Proof.
  unfold find. intros Hfind. apply fmap_Some in Hfind as ([i y] & Hf & ->).
  apply list_find_Some in Hf as (Hl & HP & _). split; [|done].
  by eapply list_elem_of_lookup_2.
Qed.

Lemma find_cons (P : A → Prop) `{!∀ x, Decision (P x)} x l :
  find P (x :: l) = if decide (P x) then Some x else find P l.
Proof.
  unfold find. simpl. destruct (decide (P x)); [done|].
  destruct (list_find P l) as [[i y]|]; done.
Qed.

Lemma find_app_fresh (P : A → Prop) `{!∀ x, Decision (P x)} l x :
  Forall (λ y, ¬ P y) l → P x → find P (l ++ [x]) = Some x.
Proof.
  induction 1 as [|y l Hy _ IH]; intros Hx; simpl.
  - rewrite find_cons. by rewrite decide_True.
  - rewrite find_cons. rewrite decide_False by done. by apply IH.
Qed.

(** A map that does not change what [P] looks at commutes with [find]. *)
Lemma find_fmap (P : A → Prop) `{!∀ x, Decision (P x)} (f : A → A) l :
  (∀ x, P (f x) ↔ P x) → find P (f <$> l) = f <$> find P l.
Proof.
  intros Hf. induction l as [|x l IH]; [done|].
  rewrite fmap_cons, !find_cons.
  destruct (decide (P x)) as [Hx|Hx].
  - rewrite decide_True by by apply Hf. done.
  - rewrite decide_False by by rewrite Hf. done.
Qed.

Lemma some_true (P : A → Prop) `{!∀ x, Decision (P x)} l :
  some P l = true ↔ ∃ x, x ∈ l ∧ P x.
Proof.
  unfold some. rewrite bool_decide_eq_true. apply Exists_exists.
Qed.

Lemma filter_none (P : A → Prop) `{!∀ x, Decision (P x)} l :
  Forall (λ x, ¬ P x) l → filter P l = [].
Proof.
  induction 1 as [|x l Hx _ IH]; [done|].
  rewrite filter_cons. by rewrite decide_False.
Qed.
End ListFacts.

Lemma insertTx_perm x l : insertTx x l ≡ₚ x :: l.
Proof.
  induction l as [|y l IH]; simpl; [done|].
  destruct (Z.ltb _ _); [|done].
  rewrite IH. apply Permutation_swap.
Qed.

Lemma sortTx_perm l : sortTx l ≡ₚ l.
Proof.
  induction l as [|x l IH]; simpl; [done|].
  by rewrite insertTx_perm, IH.
Qed.

Lemma elem_of_sortTx t l : t ∈ sortTx l ↔ t ∈ l.
Proof. by rewrite sortTx_perm. Qed.

Lemma insertTx_newestFirst x l : newestFirst l → newestFirst (insertTx x l).
Proof.
  unfold newestFirst. induction 1 as [|y l Hl IH Hy]; simpl.
  - repeat constructor.
  - destruct (Z.ltb_spec (Transaction.date x) (Transaction.date y)).
    + constructor; [done|].
      rewrite insertTx_perm. constructor; [lia|done].
    + constructor; [by constructor|].
      constructor; [done|].
      eapply Forall_impl; [exact Hy|]. simpl. intros; lia.
Qed.

Lemma sortTx_newestFirst l : newestFirst (sortTx l).
Proof.
  induction l; simpl; [constructor|]. by apply insertTx_newestFirst.
Qed.

(** Sorting a log that is already newest first changes nothing. *)
Lemma sortTx_id l : newestFirst l → sortTx l = l.
Proof.
  unfold newestFirst. induction 1 as [|x l Hl IH Hx]; simpl; [done|].
  rewrite IH. destruct l as [|y l]; [done|]. simpl.
  apply Forall_cons in Hx as [Hy _].
  destruct (Z.ltb_spec (Transaction.date x) (Transaction.date y)); [lia|done].
Qed.

Lemma filter_newestFirst (P : Transaction.t → Prop) `{!∀ x, Decision (P x)} l :
  newestFirst l → newestFirst (filter P l).
Proof.
  unfold newestFirst. induction 1 as [|x l Hl IH Hx]; [constructor|].
  rewrite filter_cons. destruct (decide (P x)); [|done].
  constructor; [done|].
  apply Forall_forall. intros y [_ Hy]%list_elem_of_filter.
  by eapply Forall_forall in Hx.
Qed.

Lemma elem_of_alter_inv {A} (f : A → A) i (l : list A) y :
  y ∈ alter f i l → ∃ z, z ∈ l ∧ (y = z ∨ y = f z).
Proof.
  revert i. induction l as [|x l IH]; intros [|i] Hy; simpl in Hy;
    try by apply elem_of_nil in Hy.
  - apply elem_of_cons in Hy as [->|Hy].
    + exists x. split; [left|by right].
    + exists y. split; [by right|by left].
  - apply elem_of_cons in Hy as [->|Hy].
    + exists x. split; [left|by left].
    + apply IH in Hy as (z & Hz & Hyz). exists z. split; [by right|done].
Qed.

(** The sort on a small log: newest first, equal dates in their order. *)
Example sortTx_stable :
  Transaction.id <$>
    sortTx [ setTxId (Sample.manual TransactionType.Income "a1" None 1 "Gaji") "x";
             Transaction.mk "y" 14 TransactionType.Income "a1" None 2 "Gaji" ""
               TransactionSource.Manual None None;
             setTxId (Sample.manual TransactionType.Income "a1" None 3 "Gaji") "z";
             Transaction.mk "w" 9 TransactionType.Income "a1" None 4 "Gaji" ""
               TransactionSource.Manual None None ]
  = ["y"; "x"; "z"; "w"].
Proof. reflexivity. Qed.

(** ** Sums over the log *)

Arguments sumBy : simpl never.
Arguments signedSum : simpl never.
Arguments sortTx : simpl never.

Section SumBy.
Variable f : Transaction.t → Z.

Lemma sumBy_cons t l : sumBy f (t :: l) = f t + sumBy f l.
Proof. done. Qed.

#[global] Instance sumBy_perm : Proper ((≡ₚ) ==> (=)) (sumBy f).
Proof.
  induction 1 as [|t l1 l2 _ IH|t1 t2 l|l1 l2 l3 _ IH1 _ IH2];
    rewrite ?sumBy_cons; [done|lia|lia|congruence].
Qed.

Lemma sumBy_sortTx l : sumBy f (sortTx l) = sumBy f l.
Proof. by rewrite sortTx_perm. Qed.

Lemma sumBy_zero l : Forall (λ t, f t = 0) l → sumBy f l = 0.
Proof.
  induction 1 as [|t l Ht _ IH]; [done|]. rewrite sumBy_cons. lia.
Qed.

Lemma sumBy_filter_split (P : Transaction.t → Prop) `{!∀ x, Decision (P x)} l :
  sumBy f l = sumBy f (filter P l) + sumBy f (filter (λ t, ¬ P t) l).
Proof.
  induction l as [|t l IH]; [done|].
  rewrite !filter_cons, sumBy_cons.
  destruct (decide (P t)) as [Ht|Ht].
  - rewrite decide_False by tauto. rewrite sumBy_cons. lia.
  - rewrite decide_True by done. rewrite sumBy_cons. lia.
Qed.

(** Removing the transactions satisfying [P] when none of them counts. *)
Lemma sumBy_filter_out (P : Transaction.t → Prop) `{!∀ x, Decision (P x)} l :
  Forall (λ t, P t → f t = 0) l → sumBy f (filter (λ t, ¬ P t) l) = sumBy f l.
Proof.
  intros Hl. rewrite (sumBy_filter_split P l).
  rewrite (sumBy_zero (filter P l)); [lia|].
  apply Forall_forall. intros t [Ht Hin]%list_elem_of_filter.
  eapply Forall_forall in Hl; eauto.
Qed.

Lemma sumBy_delete i l t :
  l !! i = Some t → sumBy f (delete i l) = sumBy f l - f t.
Proof.
  revert i. induction l as [|x l IH]; intros [|i] Hi; simplify_eq/=.
  - rewrite sumBy_cons. lia.
  - rewrite !sumBy_cons, (IH i) by done. lia.
Qed.

Lemma sumBy_alter g i l t :
  l !! i = Some t → sumBy f (alter g i l) = sumBy f l - f t + f (g t).
Proof.
  revert i. induction l as [|x l IH]; intros [|i] Hi; simplify_eq/=.
  - rewrite !sumBy_cons. lia.
  - rewrite !sumBy_cons, (IH i) by done. lia.
Qed.
End SumBy.

(** ** One account under [addTransaction] *)

Lemma applyTransaction_id t acc : Account.id (applyTransaction t acc) = Account.id acc.
Proof.
  unfold applyTransaction. repeat case_bool_decide; try done.
  by destruct (Transaction.type t).
Qed.



(** ** Claims about single operations *)

(** C8. An operation aimed at an entity that does not exist changes
    nothing: [deleteInvestment] of an id no investment carries returns the
    store it was given, and so does [markReceivableAsPaid] of an id no
    receivable carries. *)
Theorem missing_entity_is_noop s txUuid today id accountId :
  (Forall (λ inv, Investment.id inv ≠ id) (investments s) →
   deleteInvestment s txUuid today id = s)
  ∧ (Forall (λ r, Receivable.id r ≠ id) (receivables s) →
     markReceivableAsPaid s txUuid today id accountId = s).
Proof.
  split; intros Hnone.
  - unfold deleteInvestment.
    replace (find _ (investments s)) with (@None Investment.t); [done|].
    symmetry. apply find_None. eapply Forall_impl; [exact Hnone|]. naive_solver.
  - unfold markReceivableAsPaid.
    replace (find _ (receivables s)) with (@None Receivable.t); [done|].
    symmetry. apply find_None. eapply Forall_impl; [exact Hnone|]. naive_solver.
Qed.

Lemma missing_entity_is_noop_witness :
  deleteInvestment Sample.invested "t9" 20 "i7" = Sample.invested
  ∧ markReceivableAsPaid Sample.paid "t9" 20 "r7" "a1" = Sample.paid.
Proof.
  split.
  - apply (missing_entity_is_noop Sample.invested "t9" 20 "i7" "a1").
    vm_compute. by repeat constructor.
  - apply (missing_entity_is_noop Sample.paid "t9" 20 "r7" "a1").
    vm_compute. by repeat constructor.
Defined.

(** C5. [deleteAccount] is refused, returning the store unchanged, exactly
    when a transaction other than an opening-balance entry names the
    account as source or destination or an investment is funded from it;
    otherwise the accounts with that id and the opening-balance entries of
    the account are removed and nothing else changes. *)
Theorem deleteAccount_guarded s id :
  (isAccountInUse s id = true ↔
     (∃ t, t ∈ transactions s
        ∧ (Transaction.accountId t = id ∨ Transaction.toAccountId t = Some id)
        ∧ Transaction.category t ≠ SaldoAwal)
     ∨ (∃ i, i ∈ investments s ∧ Investment.accountId i = id))
  ∧ (isAccountInUse s id = true → deleteAccount s id = s)
  ∧ (isAccountInUse s id = false →
     deleteAccount s id
     = mkStore (filter (λ acc, Account.id acc ≠ id) (accounts s))
               (platforms s) (investments s)
               (filter (λ t, ¬ (Transaction.accountId t = id
                                ∧ Transaction.category t = SaldoAwal))
                       (transactions s))
               (receivables s)).
Proof.
  split; [|split].
  - unfold isAccountInUse. rewrite orb_true_iff, !some_true. done.
  - intros Huse. unfold deleteAccount. by rewrite Huse.
  - intros Huse. unfold deleteAccount. by rewrite Huse.
Qed.

Lemma deleteAccount_guarded_witness :
  deleteAccount Sample.invested "a1" = Sample.invested
  ∧ accounts (deleteAccount Sample.twoAccounts "a2") = accounts Sample.opened
  ∧ transactions (deleteAccount Sample.twoAccounts "a2") = transactions Sample.opened.
Proof.
  split.
  - by apply (deleteAccount_guarded Sample.invested "a1").
  - pose proof (deleteAccount_guarded Sample.twoAccounts "a2") as (_ & _ & Hfree).
    rewrite Hfree by done. split; by vm_compute.
Defined.

(** C7. After [deleteInvestment] of an existing investment no transaction
    linked to it with source Investment is left in the log: the filter
    that drops the original expense drops the compensating income
    "Pengembalian Investasi" that was appended just before it as well. *)
Theorem deleteInvestment_drops_refund s txUuid today id inv :
  find (λ i, Investment.id i = id) (investments s) = Some inv →
  let s' := deleteInvestment s txUuid today id in
  Forall (λ t, ¬ isLinkedInvestmentTx id t) (transactions s')
  ∧ (setTxId (refundTx today id inv) txUuid ∉ transactions s')
  ∧ Forall (λ i, Investment.id i ≠ id) (investments s').
Proof.
  intros Hfind s'. subst s'. unfold deleteInvestment. rewrite Hfind.
  cbv zeta. simpl. split; [|split].
  - apply Forall_forall. by intros t [Ht _]%list_elem_of_filter.
  - intros [Ht _]%list_elem_of_filter. apply Ht. by split.
  - apply Forall_forall. by intros t [Ht _]%list_elem_of_filter.
Qed.

Lemma deleteInvestment_drops_refund_witness :
  transactions (deleteInvestment Sample.invested "t9" 20 "i1")
  = transactions Sample.opened
  ∧ (setTxId (refundTx 20 "i1" (Investment.mk "i1" "Saham" 3 "a1" "p1" 1000 1200)) "t9"
     ∉ transactions (deleteInvestment Sample.invested "t9" 20 "i1")).
Proof.
  split; [by vm_compute|].
  apply (deleteInvestment_drops_refund Sample.invested "t9" 20 "i1"
           (Investment.mk "i1" "Saham" 3 "a1" "p1" 1000 1200)).
  by vm_compute.
Defined.

(** C2. [addAccount] with a fresh identifier appends the account; its
    balance afterwards is [initialBalance].  When [initialBalance] is not
    zero the log gains exactly one transaction, an income of category
    "Saldo Awal" and amount [initialBalance] on the new account, and it is
    the only opening-balance entry of the account; when [initialBalance]
    is zero the log is unchanged and the balance is 0. *)
Theorem addAccount_opening_balance s uuid txUuid today account initialBalance :
  freshAccountId s uuid →
  let s' := addAccount s uuid txUuid today account initialBalance in
  let opening :=
    Transaction.mk txUuid today TransactionType.Income uuid None initialBalance
      SaldoAwal ("Saldo awal untuk rekening " +:+ Account.name account)
      TransactionSource.Manual None None in
  accounts s'
  = (accounts s ++ [Account.mk uuid (Account.name account) (Account.type account)
                      initialBalance])%list
  ∧ getAccount s' uuid
    = Some (Account.mk uuid (Account.name account) (Account.type account) initialBalance)
  ∧ (initialBalance ≠ 0 →
     transactions s' = sortTx (opening :: transactions s)
     ∧ filter (isInitialTx uuid) (transactions s') = [opening])
  ∧ (initialBalance = 0 → transactions s' = transactions s).
Proof.
  intros [Haccs Htxs] s' opening.
  assert (accounts s' = (accounts s ++ [Account.mk uuid (Account.name account)
            (Account.type account) initialBalance])%list) as Hacc'.
  { subst s'. unfold addAccount. cbv zeta. case_bool_decide as Hz.
    - unfold addTransaction. simpl. rewrite fmap_app. f_equal.
      + rewrite <- (list_fmap_id (accounts s)) at 2.
        apply Forall_fmap_ext. eapply Forall_impl; [exact Haccs|].
        intros acc Hacc. unfold applyTransaction. simpl.
        by rewrite bool_decide_false by done.
      + simpl. unfold applyTransaction. simpl. rewrite bool_decide_true by done.
        unfold setBalance. simpl. done.
    - simpl. do 3 f_equal. lia. }
  split; [done|]. split; [|split].
  - unfold getAccount. rewrite Hacc'. apply find_app_fresh; [|done].
    eapply Forall_impl; [exact Haccs|]. naive_solver.
  - intros Hnz. subst s'. unfold addAccount. cbv zeta.
    rewrite bool_decide_true by done. simpl. split; [done|].
    apply Permutation_singleton_r.
    rewrite sortTx_perm, filter_cons. rewrite decide_True by done.
    rewrite filter_none; [done|].
    eapply Forall_impl; [exact Htxs|]. by intros t [Ht _] [Ht' _].
  - intros ->. subst s'. unfold addAccount. by rewrite bool_decide_false by lia.
Qed.

Lemma addAccount_opening_balance_witness :
  getAccount (addAccount Sample.opened "a2" "t2" 10 Sample.cash 40) "a2"
  = Some (Account.mk "a2" "Tunai" "Cash" 40)
  ∧ getAccount (addAccount Sample.opened "a3" "t6" 10 Sample.cash 0) "a3"
    = Some (Account.mk "a3" "Tunai" "Cash" 0).
Proof.
  split.
  - apply (addAccount_opening_balance Sample.opened "a2" "t2" 10 Sample.cash 40).
    vm_compute. split; by repeat constructor.
  - apply (addAccount_opening_balance Sample.opened "a3" "t6" 10 Sample.cash 0).
    vm_compute. split; by repeat constructor.
Defined.



(** ** Opening-balance entries along a run *)

Lemma filter_length_sublist {A} (P : A → Prop) `{!∀ x, Decision (P x)} (l1 l2 : list A) :
  l1 `sublist_of` l2 → (length (filter P l1) ≤ length (filter P l2))%nat.
Proof.
  induction 1 as [|x l1 l2 _ IH|x l1 l2 _ IH]; [done|..];
    rewrite ?filter_cons; destruct (decide (P x)); simpl; lia.
Qed.

Lemma filter_length_alter {A} (P : A → Prop) `{!∀ x, Decision (P x)}
    (f : A → A) i (l : list A) :
  (∀ x, P (f x) ↔ P x) → length (filter P (alter f i l)) = length (filter P l).
Proof.
  intros Hf. revert i. induction l as [|x l IH]; intros [|i]; simpl; [done|done|..].
  - rewrite !filter_cons. destruct (decide (P x)) as [Hx|Hx].
    + by rewrite decide_True by by apply Hf.
    + by rewrite decide_False by by rewrite Hf.
  - rewrite !filter_cons. specialize (IH i).
    change (list_alter f i l) with (alter f i l).
    destruct (decide (P x)); simpl; by rewrite IH.
Qed.

Lemma initialCount_sortTx_cons a t log :
  length (filter (isInitialTx a) (sortTx (t :: log)))
  = length (filter (isInitialTx a) (t :: log)).
Proof. apply Permutation_length. by rewrite sortTx_perm. Qed.

(** A transaction outside the reserved category adds no opening entry. *)
Lemma initialCount_addTransaction a s uuid tx :
  Transaction.category tx ≠ SaldoAwal →
  length (filter (isInitialTx a) (transactions (addTransaction s uuid tx)))
  = length (filter (isInitialTx a) (transactions s)).
Proof.
  intros Hcat. simpl. rewrite initialCount_sortTx_cons, filter_cons.
  rewrite decide_False; [done|]. by intros [_ ?].
Qed.

Lemma oneInitialTx_step s o :
  oneInitialTx s →
  freshOp s o →
  (∀ uuid tx, o = OpAddTransaction uuid tx → Transaction.category tx ≠ SaldoAwal) →
  oneInitialTx (runOp s o).
Proof.
  intros Hone Hfresh Hallowed a. specialize (Hone a).
  assert (∀ l, l ≡ₚ transactions s →
            (length (filter (isInitialTx a) l) ≤ 1)%nat) as Hperm.
  { intros l Hl. by rewrite Hl. }
  assert (∀ l, l `sublist_of` transactions s →
            (length (filter (isInitialTx a) l) ≤ 1)%nat) as Hsub.
  { intros l Hl. etrans; [by apply filter_length_sublist|done]. }
  destruct o as [uuid tx|uuid txUuid today account b|txUuid today account b|id
                |uuid p|p|id|uuid txUuid inv|inv|id v|txUuid today id
                |uuid txUuid today r|r|id|txUuid today id accountId];
    unfold runOp; cbn [freshOp] in Hfresh.
  - rewrite initialCount_addTransaction; [done|]. by eapply Hallowed.
  - unfold addAccount. cbv zeta. case_bool_decide; [|exact Hone].
    cbn [transactions addTransaction setTransactions setAccounts].
    rewrite initialCount_sortTx_cons, filter_cons.
    destruct Hfresh as [_ Hfresh].
    destruct (decide (isInitialTx a _)) as [[Ha _]|_]; [|exact Hone].
    simpl in Ha. subst a. rewrite filter_none; [done|].
    eapply Forall_impl; [exact Hfresh|]. by intros t [Ht _] [Ht' _].
  - unfold updateAccount, findIndex. cbv zeta.
    cbn [transactions setTransactions setAccounts].
    destruct (list_find _ (transactions s)) as [[i t]|] eqn:Hfind; cbn [fmap option_fmap option_map fst].
    + case_bool_decide.
      * etrans; [apply Nat.eq_le_incl, Permutation_length; by rewrite sortTx_perm|].
        apply Hsub, sublist_delete.
      * etrans; [apply Nat.eq_le_incl, Permutation_length; by rewrite sortTx_perm|].
        etrans; [|exact Hone]. apply Nat.eq_le_incl.
        apply filter_length_alter. by intros [].
    + case_bool_decide; [|by apply Hperm, sortTx_perm].
      rewrite initialCount_sortTx_cons, filter_cons.
      destruct (decide (isInitialTx a _)) as [[Ha _]|_]; [|exact Hone].
      simpl in Ha. subst a. apply list_find_None in Hfind.
      by rewrite filter_none.
  - unfold deleteAccount. destruct (isAccountInUse s id); [exact Hone|].
    apply Hsub. apply sublist_filter.
  - exact Hone.
  - exact Hone.
  - unfold deletePlatform. by destruct (isPlatformInUse s id).
  - unfold addInvestment. by rewrite initialCount_addTransaction.
  - exact Hone.
  - exact Hone.
  - unfold deleteInvestment. destruct (find _ (investments s)); [|exact Hone].
    cbv zeta. cbn [transactions setTransactions setInvestments].
    etrans; [apply filter_length_sublist, sublist_filter|].
    by rewrite initialCount_addTransaction.
  - unfold addReceivable. by rewrite initialCount_addTransaction.
  - exact Hone.
  - unfold deleteReceivable. cbn [transactions setTransactions setAccounts].
    etrans; [apply Nat.eq_le_incl, Permutation_length; by rewrite sortTx_perm|].
    apply Hsub, sublist_filter.
  - unfold markReceivableAsPaid. destruct (find _ (receivables s)); [|exact Hone].
    by rewrite initialCount_addTransaction.
Qed.

(** C9 (as amended). In every store reached from the empty one by
    operations whose direct [addTransaction] calls stay out of the
    reserved category, no account has more than one transaction of
    category "Saldo Awal". *)
Theorem reachable_oneInitialTx s :
  reachable (λ tx, Transaction.category tx ≠ SaldoAwal) s →
  ∀ a, (length (filter (λ t, Transaction.accountId t = a
                             ∧ Transaction.category t = SaldoAwal)
                       (transactions s)) ≤ 1)%nat.
Proof.
  induction 1 as [|s o _ IH Hfresh Hallowed]; [intros a; simpl; lia|].
  by apply oneInitialTx_step.
Qed.

Lemma reachable_oneInitialTx_witness :
  (length (filter (λ t, Transaction.accountId t = "a1"
                        ∧ Transaction.category t = SaldoAwal)
                  (transactions Sample.twoAccounts)) ≤ 1)%nat.
Proof.
  apply (reachable_oneInitialTx Sample.twoAccounts).
  apply (reachable_step _ _ (OpAddAccount "a2" "t2" 10 Sample.cash 40)).
  - apply (reachable_step _ _ (OpAddAccount "a1" "t1" 10 Sample.bank 500)).
    + apply reachable_empty.
    + vm_compute. split; constructor.
    + intros uuid tx Hop. discriminate Hop.
  - vm_compute. split; by repeat constructor.
  - intros uuid tx Hop. discriminate Hop.
Defined.

(** C9, as stated for an arbitrary caller-supplied category, fails: after
    opening "a1" with 500, a direct [addTransaction] of an income of
    category "Saldo Awal" on "a1" leaves the account with two
    opening-balance transactions. *)
Lemma addTransaction_second_initialTx :
  let s := addTransaction Sample.opened "t2"
             (Sample.manual TransactionType.Income "a1" None 100 SaldoAwal) in
  reachable anyTx s
  ∧ length (filter (isInitialTx "a1") (transactions s)) = 2%nat
  ∧ ¬ oneInitialTx s.
Proof.
  split; [|split].
  - apply (reachable_step anyTx _
             (OpAddTransaction "t2"
                (Sample.manual TransactionType.Income "a1" None 100 SaldoAwal))).
    + apply (reachable_step anyTx _ (OpAddAccount "a1" "t1" 10 Sample.bank 500)).
      * apply reachable_empty.
      * vm_compute. split; constructor.
      * done.
    + done.
    + done.
  - by vm_compute.
  - intros Hone. specialize (Hone "a1"). vm_compute in Hone. lia.
Qed.

(** ** Properties of every transaction of the log along a run *)

Lemma Forall_sortTx (Q : Transaction.t → Prop) l : Forall Q l → Forall Q (sortTx l).
Proof. intros Hl. by rewrite sortTx_perm. Qed.

Lemma Forall_filter_keep {A} (Q P : A → Prop) `{!∀ x, Decision (P x)} (l : list A) :
  Forall Q l → Forall Q (filter P l).
Proof.
  intros Hl. apply Forall_forall. intros x [_ Hx]%list_elem_of_filter.
  by eapply Forall_forall in Hl.
Qed.

Lemma Forall_addTransaction (Q : Transaction.t → Prop) s uuid tx :
  Q (setTxId tx uuid) → Forall Q (transactions s) →
  Forall Q (transactions (addTransaction s uuid tx)).
Proof. intros Htx Hl. apply Forall_sortTx. by constructor. Qed.

Lemma log_Forall_step (Q : Transaction.t → Prop) s o :
  (∀ t n, Q t → Q (setAmount t n)) →
  (∀ t, generatedTx t → Q t) →
  (∀ uuid tx, o = OpAddTransaction uuid tx → Q (setTxId tx uuid)) →
  Forall Q (transactions s) → Forall Q (transactions (runOp s o)).
Proof.
  intros Hamount Hgen Hallowed Hlog.
  destruct o as [uuid tx|uuid txUuid today account b|txUuid today account b|id
                |uuid p|p|id|uuid txUuid inv|inv|id v|txUuid today id
                |uuid txUuid today r|r|id|txUuid today id accountId];
    unfold runOp; try exact Hlog.
  - apply Forall_addTransaction; [by eapply Hallowed|done].
  - unfold addAccount. cbv zeta. case_bool_decide; [|exact Hlog].
    apply Forall_addTransaction; [|done]. apply Hgen. by left.
  - unfold updateAccount, findIndex. cbv zeta.
    cbn [transactions setTransactions setAccounts]. apply Forall_sortTx.
    destruct (list_find _ (transactions s)) as [[i t]|];
      cbn [fmap option_fmap option_map fst]; case_bool_decide; try done.
    + apply Forall_forall. intros t' Ht'%list_elem_of_delete_inv.
      by eapply Forall_forall in Hlog.
    + apply Forall_forall. intros t' (z & Hz & Ht')%elem_of_alter_inv.
      eapply Forall_forall in Hlog; [|exact Hz].
      destruct Ht' as [->| ->]; [done|by apply Hamount].
    + constructor; [|done]. apply Hgen. by left.
  - unfold deleteAccount. destruct (isAccountInUse s id); [exact Hlog|].
    by apply Forall_filter_keep.
  - unfold deletePlatform. by destruct (isPlatformInUse s id).
  - unfold addInvestment. apply Forall_addTransaction; [|done].
    apply Hgen. right; right. by repeat split.
  - unfold deleteInvestment. destruct (find _ (investments s)); [|exact Hlog].
    cbv zeta. cbn [transactions setTransactions setInvestments].
    apply Forall_filter_keep. apply Forall_addTransaction; [|done].
    apply Hgen. right; right. by repeat split.
  - unfold addReceivable. apply Forall_addTransaction; [|done].
    apply Hgen. right; left. by split.
  - unfold deleteReceivable. cbn [transactions setTransactions setAccounts].
    by apply Forall_sortTx, Forall_filter_keep.
  - unfold markReceivableAsPaid. destruct (find _ (receivables s)); [|exact Hlog].
    apply Forall_addTransaction; [|done]. apply Hgen. right; left. by split.
Qed.

Lemma initialTxsIncome_step s o :
  (∀ uuid tx, o = OpAddTransaction uuid tx → Transaction.category tx ≠ SaldoAwal) →
  initialTxsIncome (transactions s) → initialTxsIncome (transactions (runOp s o)).
Proof.
  intros Hallowed. apply log_Forall_step.
  - intros t n Ht. exact Ht.
  - intros t [(_ & ? & ?)|[[Hcat _]|[Hcat _]]] Hsa; done.
  - intros uuid tx Hop Hsa. by apply Hallowed in Hop.
Qed.

Lemma investmentTxsUnlinked_step s o :
  (∀ uuid tx, o = OpAddTransaction uuid tx →
              Transaction.source tx ≠ TransactionSource.Investment) →
  investmentTxsUnlinked (transactions s) →
  investmentTxsUnlinked (transactions (runOp s o)).
Proof.
  intros Hallowed. apply log_Forall_step.
  - intros t n Ht. exact Ht.
  - intros t [(_ & _ & Hsrc)|[[_ Hsrc]|(_ & _ & Hrec)]] Hinv; [congruence..|done].
  - intros uuid tx Hop Hinv. by apply Hallowed in Hop.
Qed.

Lemma newestFirst_step s o :
  newestFirst (transactions s) → newestFirst (transactions (runOp s o)).
Proof.
  intros Hlog.
  destruct o; unfold runOp; try exact Hlog; try apply sortTx_newestFirst.
  - unfold addAccount. cbv zeta. case_bool_decide; [|exact Hlog].
    apply sortTx_newestFirst.
  - unfold deleteAccount. destruct (isAccountInUse s id); [exact Hlog|].
    by apply filter_newestFirst.
  - unfold deletePlatform. by destruct (isPlatformInUse s id).
  - unfold deleteInvestment. destruct (find _ (investments s)); [|exact Hlog].
    apply filter_newestFirst, sortTx_newestFirst.
  - unfold markReceivableAsPaid. destruct (find _ (receivables s)); [|exact Hlog].
    apply sortTx_newestFirst.
Qed.

(** Every log the operations produce is ordered newest first. *)
Lemma reachable_newestFirst allowed s : reachable allowed s → newestFirst (transactions s).
Proof.
  induction 1 as [|s o _ IH _ _]; [constructor|by apply newestFirst_step].
Qed.

(** ** How each operation moves the sums over the log *)

Lemma sumBy_addTransaction f s uuid tx :
  sumBy f (transactions (addTransaction s uuid tx))
  = f (setTxId tx uuid) + sumBy f (transactions s).
Proof.
  cbn [addTransaction transactions setTransactions setAccounts].
  by rewrite sumBy_sortTx, sumBy_cons.
Qed.

Lemma sumBy_updateAccount f s txUuid today updated newInitialBalance :
  sumBy f (transactions (updateAccount s txUuid today updated newInitialBalance))
  = sumBy f (transactions s)
    + match list_find (isInitialTx (Account.id updated)) (transactions s) with
      | Some (i, t) =>
          if bool_decide (newInitialBalance = 0) then - f t
          else f (setAmount t newInitialBalance) - f t
      | None =>
          if bool_decide (newInitialBalance ≠ 0) then
            f (Transaction.mk txUuid today TransactionType.Income
                 (Account.id updated) None newInitialBalance SaldoAwal
                 ("Saldo awal untuk rekening " +:+ Account.name updated)
                 TransactionSource.Manual None None)
          else 0
      end.
Proof.
  unfold updateAccount, findIndex. cbv zeta.
  cbn [transactions setTransactions setAccounts]. rewrite sumBy_sortTx.
  destruct (list_find _ (transactions s)) as [[i t]|] eqn:Hfind;
    cbn [fmap option_fmap option_map fst].
  - apply list_find_Some in Hfind as (Hi & _ & _). case_bool_decide.
    + rewrite (sumBy_delete f i _ t) by done. lia.
    + rewrite (sumBy_alter f _ i _ t) by done. lia.
  - case_bool_decide; [rewrite sumBy_cons|]; lia.
Qed.

Lemma sumBy_deleteAccount f s id :
  Forall (λ t, isInitialTx id t → f t = 0) (transactions s) →
  sumBy f (transactions (deleteAccount s id)) = sumBy f (transactions s).
Proof.
  intros Hzero. unfold deleteAccount. destruct (isAccountInUse s id); [done|].
  cbn [transactions setTransactions setAccounts]. by apply sumBy_filter_out.
Qed.

Lemma sumBy_deleteInvestment f s txUuid today id inv :
  find (λ i, Investment.id i = id) (investments s) = Some inv →
  sumBy f (transactions (deleteInvestment s txUuid today id))
  = sumBy f (transactions s) - sumBy f (filter (isLinkedInvestmentTx id) (transactions s)).
Proof.
  intros Hfind. unfold deleteInvestment. rewrite Hfind. cbv zeta.
  cbn [transactions setTransactions setInvestments addTransaction setAccounts].
  rewrite sortTx_perm, filter_cons. rewrite decide_False by (intros Hn; by apply Hn).
  rewrite (sumBy_filter_split f (isLinkedInvestmentTx id) (transactions s)). lia.
Qed.

Lemma sumBy_deleteReceivable f s id :
  Forall (λ t, Transaction.linkedReceivableId t = Some id → f t = 0) (transactions s) →
  sumBy f (transactions (deleteReceivable s id)) = sumBy f (transactions s).
Proof.
  intros Hzero. unfold deleteReceivable.
  cbn [transactions setTransactions setAccounts]. rewrite sumBy_sortTx.
  by apply (sumBy_filter_out f (λ t, Transaction.linkedReceivableId t = Some id)).
Qed.

(** The sum of the effects of the transactions linked to an investment. *)
Lemma sumBy_filter_linked id a l :
  sumBy (effect a) (filter (isLinkedInvestmentTx id) l) = sumBy (linkedEffect id a) l.
Proof.
  induction l as [|t l IH]; [done|].
  rewrite filter_cons, sumBy_cons. unfold linkedEffect at 1.
  destruct (decide (isLinkedInvestmentTx id t)); [rewrite sumBy_cons|]; lia.
Qed.

Lemma linkedEffect_unlinked id a t :
  ¬ isLinkedInvestmentTx id t → linkedEffect id a t = 0.
Proof. intros Ht. unfold linkedEffect. by rewrite decide_False. Qed.

Lemma effect_expense a t :
  Transaction.type t = TransactionType.Expense →
  effect a t = if bool_decide (Transaction.accountId t = a) then - Transaction.amount t else 0.
Proof.
  intros Hty. unfold effect. rewrite Hty.
  rewrite (bool_decide_false (_ ∧ _)) by (by intros [_ ?]).
  case_bool_decide; lia.
Qed.

(** ** The capital outflows of the investments along a run *)

Lemma linkedEffect_source id a t :
  Transaction.source t ≠ TransactionSource.Investment → linkedEffect id a t = 0.
Proof. intros Hsrc. apply linkedEffect_unlinked. by intros [_ ?]. Qed.

Lemma linkedEffect_other id id' a t :
  id ≠ id' → isLinkedInvestmentTx id' t → linkedEffect id a t = 0.
Proof.
  intros Hne [Hid' _]. apply linkedEffect_unlinked. intros [Hid _]. congruence.
Qed.

Lemma investmentsBacked_addTransaction s uuid tx :
  Transaction.source tx ≠ TransactionSource.Investment →
  investmentsBacked s → investmentsBacked (addTransaction s uuid tx).
Proof.
  intros Hsrc Hback. unfold investmentsBacked.
  setoid_rewrite sumBy_addTransaction.
  eapply Forall_impl; [exact Hback|]. intros inv Hinv a.
  rewrite linkedEffect_source by done. rewrite Hinv. lia.
Qed.

Lemma investmentsBacked_step s o :
  ledgerInv s →
  freshOp s o →
  (∀ uuid tx, o = OpAddTransaction uuid tx → plainTx tx) →
  investmentsBacked (runOp s o).
Proof.
  intros [Hone Hinc Hunl Hback] Hfresh Hallowed.
  assert (∀ id a, Forall (λ t, Transaction.category t = SaldoAwal →
                               linkedEffect id a t = 0) (transactions s)) as Hsa.
  { intros id a. eapply Forall_impl; [exact Hinc|]. intros t Ht Hcat.
    destruct (Ht Hcat) as [_ Hsrc]. apply linkedEffect_source. congruence. }
  destruct o as [uuid tx|uuid txUuid today account b|txUuid today account b|id
                |uuid p|p|id|uuid txUuid inv|inv|id v|txUuid today id
                |uuid txUuid today r|r|id|txUuid today id accountId];
    unfold runOp; cbn [freshOp] in Hfresh; try exact Hback.
  - apply investmentsBacked_addTransaction; [|done].
    by destruct (Hallowed uuid tx eq_refl) as (Hsrc & _).
  - unfold addAccount. cbv zeta. case_bool_decide; [|exact Hback].
    by apply investmentsBacked_addTransaction.
  - (* updateAccount *)
    unfold investmentsBacked. setoid_rewrite sumBy_updateAccount.
    eapply Forall_impl; [exact Hback|]. intros inv Hinv a. rewrite Hinv.
    destruct (list_find _ (transactions s)) as [[i t]|] eqn:Hfind.
    + apply list_find_Some in Hfind as (Hi & [_ Hcat] & _).
      apply list_elem_of_lookup_2 in Hi.
      assert (Transaction.source t ≠ TransactionSource.Investment) as Hsrc.
      { eapply Forall_forall in Hinc; [|exact Hi].
        destruct (Hinc Hcat) as [_ Hsrc]. congruence. }
      rewrite (linkedEffect_source _ _ t) by done.
      rewrite (linkedEffect_source _ _ (setAmount t b)) by done.
      repeat case_bool_decide; lia.
    + rewrite linkedEffect_source by done. repeat case_bool_decide; lia.
  - (* deleteAccount *)
    unfold investmentsBacked.
    replace (investments (deleteAccount s id)) with (investments s)
      by (unfold deleteAccount; by destruct (isAccountInUse s id)).
    eapply Forall_impl; [exact Hback|]. intros inv Hinv a.
    rewrite sumBy_deleteAccount; [done|].
    eapply Forall_impl; [exact (Hsa (Investment.id inv) a)|].
    intros t Ht [_ Hcat]. by apply Ht.
  - unfold deletePlatform. by destruct (isPlatformInUse s id).
  - (* addInvestment *)
    destruct Hfresh as [Hids Hlinks].
    unfold investmentsBacked, addInvestment. setoid_rewrite sumBy_addTransaction.
    cbn [investments transactions addTransaction setTransactions setInvestments
         setAccounts].
    apply Forall_app. split.
    + apply Forall_forall. intros inv' Hin a.
      eapply Forall_forall in Hids; [|exact Hin].
      eapply Forall_forall in Hback; [|exact Hin]. rewrite Hback.
      rewrite (linkedEffect_other _ uuid) by done. lia.
    + constructor; [|constructor]. intros a. cbn [Investment.id Investment.accountId
        Investment.initialValue].
      rewrite sumBy_zero.
      2:{ eapply Forall_impl; [exact Hlinks|]. intros t Ht.
          apply linkedEffect_unlinked. by intros [? _]. }
      unfold linkedEffect. rewrite decide_True by done.
      rewrite effect_expense by done. cbn. lia.
  - (* updateInvestment *)
    unfold investmentsBacked, updateInvestment.
    cbn [investments transactions setInvestments]. apply Forall_fmap.
    eapply Forall_impl; [exact Hback|]. intros inv' Hinv a. unfold compose.
    by case_bool_decide.
  - (* updateInvestmentValue *)
    unfold investmentsBacked, updateInvestmentValue.
    cbn [investments transactions setInvestments]. apply Forall_fmap.
    eapply Forall_impl; [exact Hback|]. intros inv' Hinv a. unfold compose.
    by case_bool_decide.
  - (* deleteInvestment *)
    destruct (find (λ inv, Investment.id inv = id) (investments s)) as [inv|] eqn:Hfind.
    2:{ unfold deleteInvestment. by rewrite Hfind. }
    unfold investmentsBacked.
    setoid_rewrite (λ f, sumBy_deleteInvestment f s txUuid today id inv Hfind).
    unfold deleteInvestment. rewrite Hfind. cbv zeta.
    cbn [investments setTransactions setInvestments addTransaction setAccounts].
    apply Forall_forall. intros inv' [Hne Hin]%list_elem_of_filter a.
    eapply Forall_forall in Hback; [|exact Hin]. rewrite Hback.
    rewrite (sumBy_zero _ (filter _ _)); [lia|].
    apply Forall_forall. intros t [Ht _]%list_elem_of_filter.
    by apply (linkedEffect_other _ id).
  - unfold addReceivable. by apply investmentsBacked_addTransaction.
  - (* deleteReceivable *)
    unfold investmentsBacked.
    change (investments (deleteReceivable s id)) with (investments s).
    eapply Forall_impl; [exact Hback|]. intros inv Hinv a.
    rewrite sumBy_deleteReceivable; [done|].
    eapply Forall_impl; [exact Hunl|]. intros t Ht Hrec.
    apply linkedEffect_source. intros Hsrc. apply Ht in Hsrc. congruence.
  - unfold markReceivableAsPaid. destruct (find _ (receivables s)); [|exact Hback].
    by apply investmentsBacked_addTransaction.
Qed.

Lemma ledgerInv_empty : ledgerInv emptyStore.
Proof.
  split; by constructor.
Qed.

Lemma ledgerInv_step s o :
  ledgerInv s →
  freshOp s o →
  (∀ uuid tx, o = OpAddTransaction uuid tx → plainTx tx) →
  ledgerInv (runOp s o).
Proof.
  intros Hinv Hfresh Hallowed. split.
  - apply oneInitialTx_step; [by destruct Hinv|done|].
    intros uuid tx Hop. by destruct (Hallowed uuid tx Hop) as (_ & ? & _).
  - apply initialTxsIncome_step; [|by destruct Hinv].
    intros uuid tx Hop. by destruct (Hallowed uuid tx Hop) as (_ & ? & _).
  - apply investmentTxsUnlinked_step; [|by destruct Hinv].
    intros uuid tx Hop. by destruct (Hallowed uuid tx Hop) as (? & _).
  - by apply investmentsBacked_step.
Qed.

(** A valid sequence of calls leads from a reachable store to a reachable
    store. *)
Lemma reachable_runOps allowed ops s :
  reachable allowed s → validRun allowed s ops → reachable allowed (runOps s ops).
Proof.
  revert s. induction ops as [|o ops IH]; intros s Hs Hvalid; [done|].
  destruct Hvalid as (Hfresh & Hallowed & Hvalid).
  apply IH; [|done]. by apply reachable_step.
Qed.

(** ** Further properties of the provider: the log and the identifiers *)

Lemma sortTx_cons x l : sortTx (x :: l) = insertTx x (sortTx l).
Proof. done. Qed.

Lemma busy_reachable : reachable plainTx Sample.busy.
Proof.
  apply reachable_runOps; [apply reachable_empty|].
  unfold Sample.busyOps. valid_run.
Qed.

(** X2. As long as the date of every transaction passed in parses to a
    timestamp (the dates of this development are those timestamps),
    whatever else is passed to the operations, the log of every store
    reached from the empty one is ordered newest first. *)
Theorem reachable_log_newestFirst allowed s :
  reachable allowed s →
  StronglySorted (λ x y, Transaction.date y ≤ Transaction.date x) (transactions s).
Proof. apply reachable_newestFirst. Qed.

Lemma reachable_log_newestFirst_witness :
  StronglySorted (λ x y, Transaction.date y ≤ Transaction.date x)
    (transactions Sample.busy).
Proof. apply (reachable_log_newestFirst plainTx Sample.busy), busy_reachable. Defined.

Lemma NoDup_fmap_filter {A B} (f : A → B) (P : A → Prop) `{!∀ x, Decision (P x)}
    (l : list A) :
  NoDup (f <$> l) → NoDup (f <$> filter P l).
Proof.
  induction l as [|x l IH]; [done|]. rewrite fmap_cons, NoDup_cons.
  intros [Hx Hl]. rewrite filter_cons. destruct (decide (P x)); [|by apply IH].
  rewrite fmap_cons, NoDup_cons. split; [|by apply IH].
  intros (y & Hy & [_ Hin]%list_elem_of_filter)%list_elem_of_fmap.
  apply Hx. apply list_elem_of_fmap. eauto.
Qed.

Lemma fmap_fmap_same {A B} (f : A → B) (g : A → A) (l : list A) :
  (∀ x, f (g x) = f x) → f <$> (g <$> l) = f <$> l.
Proof.
  intros Hg. rewrite <- list_fmap_compose. apply list_fmap_ext. intros _ x _. apply Hg.
Qed.

Lemma accountIds_addTransaction s uuid tx :
  Account.id <$> accounts (addTransaction s uuid tx) = Account.id <$> accounts s.
Proof. apply fmap_fmap_same, applyTransaction_id. Qed.

Lemma investments_addTransaction s uuid tx :
  investments (addTransaction s uuid tx) = investments s.
Proof. done. Qed.

Lemma accountIds_step s o :
  freshOp s o →
  NoDup (Account.id <$> accounts s) → NoDup (Account.id <$> accounts (runOp s o)).
Proof.
  intros Hfresh Hnd.
  destruct o as [uuid tx|uuid txUuid today account b|txUuid today account b|id
                |uuid p|p|id|uuid txUuid inv|inv|id v|txUuid today id
                |uuid txUuid today r|r|id|txUuid today id accountId];
    unfold runOp; cbn [freshOp] in Hfresh; try exact Hnd.
  - by rewrite accountIds_addTransaction.
  - destruct Hfresh as [Hfresh _].
    assert (NoDup (Account.id <$> (accounts s ++ [Account.mk uuid (Account.name account)
                                                    (Account.type account) 0])%list))
      as Hnd1.
    { rewrite fmap_app. apply NoDup_app. split; [done|]. split.
      - intros x (acc & -> & Hin)%list_elem_of_fmap Hx.
        apply list_elem_of_singleton in Hx. simpl in Hx.
        by eapply Forall_forall in Hfresh.
      - apply NoDup_singleton. }
    unfold addAccount. cbv zeta. case_bool_decide; [|exact Hnd1].
    by rewrite accountIds_addTransaction.
  - unfold updateAccount. cbv zeta. cbn [accounts setAccounts setTransactions].
    rewrite fmap_fmap_same; [done|]. intros acc. by case_bool_decide.
  - unfold deleteAccount. destruct (isAccountInUse s id); [done|].
    cbn [accounts setAccounts setTransactions]. by apply NoDup_fmap_filter.
  - unfold deletePlatform. by destruct (isPlatformInUse s id).
  - unfold addInvestment. by rewrite accountIds_addTransaction.
  - unfold deleteInvestment. destruct (find _ (investments s)); [|done].
    cbv zeta. cbn [accounts setInvestments setTransactions].
    by rewrite accountIds_addTransaction.
  - unfold addReceivable. by rewrite accountIds_addTransaction.
  - unfold deleteReceivable. cbn [accounts setAccounts].
    by rewrite fmap_fmap_same.
  - unfold markReceivableAsPaid. destruct (find _ (receivables s)); [|done].
    by rewrite accountIds_addTransaction.
Qed.

Lemma investmentIds_step s o :
  freshOp s o →
  NoDup (Investment.id <$> investments s) →
  NoDup (Investment.id <$> investments (runOp s o)).
Proof.
  intros Hfresh Hnd.
  destruct o as [uuid tx|uuid txUuid today account b|txUuid today account b|id
                |uuid p|p|id|uuid txUuid inv|inv|id v|txUuid today id
                |uuid txUuid today r|r|id|txUuid today id accountId];
    unfold runOp; cbn [freshOp] in Hfresh; try exact Hnd.
  - unfold addAccount. cbv zeta. by case_bool_decide.
  - unfold deleteAccount. by destruct (isAccountInUse s id).
  - unfold deletePlatform. by destruct (isPlatformInUse s id).
  - destruct Hfresh as [Hfresh _]. unfold addInvestment.
    rewrite investments_addTransaction. cbn [investments setInvestments].
    rewrite fmap_app. apply NoDup_app. split; [done|]. split.
    + intros x (inv' & -> & Hin)%list_elem_of_fmap Hx.
      apply list_elem_of_singleton in Hx. simpl in Hx.
      by eapply Forall_forall in Hfresh.
    + apply NoDup_singleton.
  - unfold updateInvestment. cbn [investments setInvestments].
    rewrite fmap_fmap_same; [done|]. intros inv'. by case_bool_decide.
  - unfold updateInvestmentValue. cbn [investments setInvestments].
    rewrite fmap_fmap_same; [done|]. intros inv'. by case_bool_decide.
  - unfold deleteInvestment. destruct (find _ (investments s)); [|done].
    cbv zeta. cbn [investments setInvestments setTransactions addTransaction setAccounts].
    by apply NoDup_fmap_filter.
  - unfold markReceivableAsPaid. by destruct (find _ (receivables s)).
Qed.

(** X11. With identifiers drawn fresh, no two accounts and no two
    investments of a reachable store share an id, whatever else the
    operations are given. *)
Theorem reachable_unique_ids allowed s :
  reachable allowed s →
  NoDup (Account.id <$> accounts s) ∧ NoDup (Investment.id <$> investments s).
Proof.
  induction 1 as [|s o _ [IHa IHi] Hfresh _]; [split; constructor|].
  split; [by apply accountIds_step|by apply investmentIds_step].
Qed.

Lemma reachable_unique_ids_witness :
  NoDup (Account.id <$> accounts Sample.busy)
  ∧ NoDup (Investment.id <$> investments Sample.busy).
Proof. apply (reachable_unique_ids plainTx Sample.busy), busy_reachable. Defined.

Lemma reachable_ledgerInv s : reachable plainTx s → ledgerInv s.
Proof.
  induction 1 as [|s o _ IH Hfresh Hallowed];
    [apply ledgerInv_empty|by apply ledgerInv_step].
Qed.

Lemma filter_keep_all {A} (P : A → Prop) `{!∀ x, Decision (P x)} (l : list A) :
  Forall P l → filter P l = l.
Proof.
  induction 1 as [|x l Hx _ IH]; [done|].
  rewrite filter_cons. rewrite decide_True by done. by rewrite IH.
Qed.

Lemma filter_insertTx_out (P : Transaction.t → Prop) `{!∀ t, Decision (P t)} x l :
  ¬ P x → filter P (insertTx x l) = filter P l.
Proof.
  intros Hx. induction l as [|y l IH]; simpl.
  - rewrite filter_cons. by rewrite decide_False.
  - destruct (Z.ltb _ _).
    + rewrite !filter_cons, IH. done.
    + rewrite filter_cons. by rewrite decide_False.
Qed.

(** X12. [addTransaction] validates nothing: a transaction naming accounts
    that are not in the store is recorded in the log all the same, and
    the rest of the store, every balance included, stays as it was. *)
Theorem addTransaction_unknown_accounts s uuid tx :
  Forall (λ acc, Account.id acc ≠ Transaction.accountId tx
                 ∧ Some (Account.id acc) ≠ Transaction.toAccountId tx) (accounts s) →
  addTransaction s uuid tx
  = mkStore (accounts s) (platforms s) (investments s)
            (sortTx (setTxId tx uuid :: transactions s)) (receivables s).
Proof.
  intros Hunknown. unfold addTransaction, setAccounts, setTransactions. simpl.
  f_equal. rewrite <- (list_fmap_id (accounts s)) at 2.
  apply Forall_fmap_ext. eapply Forall_impl; [exact Hunknown|].
  intros acc [Hfrom Hto]. unfold applyTransaction. simpl.
  rewrite bool_decide_false by done.
  by rewrite bool_decide_false by (by intros [? _]).
Qed.

Lemma addTransaction_unknown_accounts_witness :
  accounts (addTransaction Sample.twoAccounts "t9"
              (Sample.manual TransactionType.Expense "a7" None 25 "Makanan"))
  = accounts Sample.twoAccounts
  ∧ length (transactions (addTransaction Sample.twoAccounts "t9"
              (Sample.manual TransactionType.Expense "a7" None 25 "Makanan"))) = 3%nat.
Proof.
  rewrite (addTransaction_unknown_accounts Sample.twoAccounts "t9"
             (Sample.manual TransactionType.Expense "a7" None 25 "Makanan")).
  - split; reflexivity.
  - vm_compute. by repeat constructor.
Defined.

(** ** Further properties of the provider: deleting and editing entities *)

Lemma find_filter_ne {A} (key : A → string) (id a : string) (l : list A) :
  a ≠ id →
  find (λ x, key x = a) (filter (λ x, key x ≠ id) l) = find (λ x, key x = a) l.
Proof.
  intros Hne. induction l as [|x l IH]; [done|].
  rewrite filter_cons, find_cons. destruct (decide (key x ≠ id)) as [Hx|Hx].
  - rewrite find_cons. by rewrite IH.
  - rewrite decide_False; [done|]. intros Hxa. apply Hx. congruence.
Qed.

Lemma find_filter_eq {A} (key : A → string) (id : string) (l : list A) :
  find (λ x, key x = id) (filter (λ x, key x ≠ id) l) = None.
Proof.
  apply find_None, Forall_forall. by intros x [Hx _]%list_elem_of_filter.
Qed.

Lemma some_false {A} (P : A → Prop) `{!∀ x, Decision (P x)} (l : list A) :
  some P l = false ↔ Forall (λ x, ¬ P x) l.
Proof.
  unfold some. rewrite bool_decide_eq_false, <- Forall_Exists_neg. done.
Qed.

(** X7. [deletePlatform] is refused, returning the store unchanged,
    exactly when an investment is placed on the platform; otherwise it
    removes the platforms with that id and nothing else.  Either way the
    platform of every stored investment is still found afterwards as it
    was before. *)
Theorem deletePlatform_guarded s id :
  (isPlatformInUse s id = true ↔
     ∃ inv, inv ∈ investments s ∧ Investment.platformId inv = id)
  ∧ (isPlatformInUse s id = true → deletePlatform s id = s)
  ∧ (isPlatformInUse s id = false →
     deletePlatform s id
     = mkStore (accounts s) (filter (λ p, Platform.id p ≠ id) (platforms s))
               (investments s) (transactions s) (receivables s)
     ∧ getPlatform (deletePlatform s id) id = None)
  ∧ (∀ inv, inv ∈ investments s →
       getPlatform (deletePlatform s id) (Investment.platformId inv)
       = getPlatform s (Investment.platformId inv)).
Proof.
  split; [|split; [|split]].
  - unfold isPlatformInUse. by rewrite some_true.
  - intros Huse. unfold deletePlatform. by rewrite Huse.
  - intros Huse. unfold deletePlatform. rewrite Huse. split; [done|].
    apply (find_filter_eq Platform.id).
  - intros inv Hinv. unfold deletePlatform.
    destruct (isPlatformInUse s id) eqn:Huse; [done|].
    apply some_false in Huse. eapply Forall_forall in Huse; [|exact Hinv].
    apply (find_filter_ne Platform.id). done.
Qed.

Lemma deletePlatform_guarded_witness :
  deletePlatform Scenario.withPlatform "p1" = Scenario.withPlatform
  ∧ getPlatform (deletePlatform (addPlatform Scenario.withPlatform "p2"
                                   (Platform.mk "" "Ajaib")) "p2") "p1"
    = Some (Platform.mk "p1" "Bibit").
Proof.
  split.
  - by apply (deletePlatform_guarded Scenario.withPlatform "p1").
  - pose proof (deletePlatform_guarded
                  (addPlatform Scenario.withPlatform "p2" (Platform.mk "" "Ajaib")) "p2")
      as (_ & _ & _ & Hkeep).
    apply (Hkeep (Investment.mk "i1" "Saham" 3 "a1" "p1" 1000 1200)).
    vm_compute. by repeat constructor.
Defined.

(** X8. [deleteAccount] never removes an account something still refers
    to: every account other than the one named is found afterwards as
    before, and so is the named one whenever it is the funding account of
    an investment or the source or destination of a transaction outside
    the opening balance.  When the deletion goes through, the account is
    no longer found and the log holds no opening-balance entry for it. *)
Theorem deleteAccount_keeps_referenced s id :
  (∀ a, a ≠ id → getAccount (deleteAccount s id) a = getAccount s a)
  ∧ (∀ inv, inv ∈ investments s →
       getAccount (deleteAccount s id) (Investment.accountId inv)
       = getAccount s (Investment.accountId inv))
  ∧ (∀ t, t ∈ transactions s → Transaction.category t ≠ SaldoAwal →
       getAccount (deleteAccount s id) (Transaction.accountId t)
       = getAccount s (Transaction.accountId t)
       ∧ ∀ b, Transaction.toAccountId t = Some b →
              getAccount (deleteAccount s id) b = getAccount s b)
  ∧ (isAccountInUse s id = false →
       getAccount (deleteAccount s id) id = None
       ∧ Forall (λ t, ¬ (Transaction.accountId t = id
                         ∧ Transaction.category t = SaldoAwal))
                (transactions (deleteAccount s id))).
Proof.
  assert (∀ a, a ≠ id ∨ isAccountInUse s id = true →
               getAccount (deleteAccount s id) a = getAccount s a) as Hkeep.
  { intros a Ha. unfold deleteAccount.
    destruct (isAccountInUse s id) eqn:Huse; [done|].
    destruct Ha as [Ha|Ha]; [|done]. by apply (find_filter_ne Account.id). }
  assert (∀ a, (∃ t, t ∈ transactions s
                  ∧ (Transaction.accountId t = a ∨ Transaction.toAccountId t = Some a)
                  ∧ Transaction.category t ≠ SaldoAwal)
               ∨ (∃ inv, inv ∈ investments s ∧ Investment.accountId inv = a) →
               getAccount (deleteAccount s id) a = getAccount s a) as Href.
  { intros a Ha. apply Hkeep. destruct (decide (a = id)) as [->|]; [right|by left].
    unfold isAccountInUse. rewrite orb_true_iff, !some_true. done. }
  split; [|split; [|split]].
  - intros a Ha. apply Hkeep. by left.
  - intros inv Hinv. apply Href. right. eauto.
  - intros t Ht Hcat. split.
    + apply Href. left. exists t. eauto.
    + intros b Hb. apply Href. left. exists t. eauto.
  - intros Huse. unfold deleteAccount. rewrite Huse. split.
    + apply (find_filter_eq Account.id).
    + apply Forall_forall. by intros t [Ht _]%list_elem_of_filter.
Qed.

Lemma deleteAccount_keeps_referenced_witness :
  getAccount (deleteAccount Sample.invested "a1") "a1" = getAccount Sample.invested "a1"
  ∧ getAccount (deleteAccount Sample.twoAccounts "a2") "a2" = None.
Proof.
  split.
  - pose proof (deleteAccount_keeps_referenced Sample.invested "a1")
      as (_ & Hinv & _).
    apply (Hinv (Investment.mk "i1" "Saham" 3 "a1" "p1" 1000 1200)).
    vm_compute. by repeat constructor.
  - by apply (deleteAccount_keeps_referenced Sample.twoAccounts "a2").
Defined.

Lemma accounts_addAccount s uuid txUuid today account initialBalance :
  Forall (λ acc, Account.id acc ≠ uuid) (accounts s) →
  accounts (addAccount s uuid txUuid today account initialBalance)
  = (accounts s ++ [Account.mk uuid (Account.name account) (Account.type account)
                      initialBalance])%list.
Proof.
  intros Haccs. unfold addAccount. cbv zeta. case_bool_decide as Hz.
  - unfold addTransaction. simpl. rewrite fmap_app. f_equal.
    + rewrite <- (list_fmap_id (accounts s)) at 2.
      apply Forall_fmap_ext. eapply Forall_impl; [exact Haccs|].
      intros acc Hacc. unfold applyTransaction. simpl.
      by rewrite bool_decide_false by done.
    + simpl. unfold applyTransaction. simpl. rewrite bool_decide_true by done.
      unfold setBalance. simpl. done.
  - simpl. do 3 f_equal. lia.
Qed.

(** X9. Round trip: [addAccount] with a fresh identifier that no
    investment names as funding account, followed by [deleteAccount] of
    it, gives back the store it started from (on a log ordered newest
    first), whatever the initial balance. *)
Theorem addAccount_deleteAccount s uuid txUuid today account initialBalance :
  freshAccountId s uuid →
  Forall (λ inv, Investment.accountId inv ≠ uuid) (investments s) →
  newestFirst (transactions s) →
  deleteAccount (addAccount s uuid txUuid today account initialBalance) uuid = s.
Proof.
  intros [Haccs Htxs] Hinvs Hsorted.
  set (s1 := addAccount s uuid txUuid today account initialBalance).
  set (opening :=
         Transaction.mk txUuid today TransactionType.Income uuid None initialBalance
           SaldoAwal ("Saldo awal untuk rekening " +:+ Account.name account)
           TransactionSource.Manual None None).
  assert (transactions s1 = transactions s
          ∨ transactions s1 = insertTx opening (transactions s)) as Hlog.
  { subst s1. unfold addAccount. cbv zeta. case_bool_decide; [right|by left].
    cbn [transactions addTransaction setTransactions setAccounts].
    by rewrite sortTx_cons, sortTx_id. }
  assert (investments s1 = investments s) as Hinv1.
  { subst s1. unfold addAccount. cbv zeta. by case_bool_decide. }
  assert (platforms s1 = platforms s ∧ receivables s1 = receivables s) as [Hp1 Hr1].
  { subst s1. unfold addAccount. cbv zeta. by case_bool_decide. }
  assert (filter (λ t, ¬ isInitialTx uuid t) (transactions s1) = transactions s) as Hkeep.
  { assert (filter (λ t, ¬ isInitialTx uuid t) (transactions s) = transactions s) as Hall.
    { apply filter_keep_all. eapply Forall_impl; [exact Htxs|].
      by intros t [Ht _] [Ht' _]. }
    destruct Hlog as [-> | ->]; [done|].
    rewrite filter_insertTx_out; [done|]. intros Hn. by apply Hn. }
  assert (isAccountInUse s1 uuid = false) as Huse.
  { unfold isAccountInUse. apply orb_false_iff. split; apply some_false.
    - apply Forall_forall. intros t Ht [Href Hcat].
      assert (t ∈ transactions s ∨ t = opening) as [Hin| ->].
      { destruct Hlog as [Hl|Hl]; rewrite Hl in Ht; [by left|].
        rewrite insertTx_perm in Ht. apply elem_of_cons in Ht as [->|Ht]; eauto. }
      + eapply Forall_forall in Htxs; [|exact Hin].
        destruct Htxs as [Hfrom Hto]. by destruct Href.
      + by apply Hcat.
    - rewrite Hinv1. done. }
  unfold deleteAccount. rewrite Huse.
  cbn [accounts transactions setTransactions setAccounts]. rewrite Hkeep.
  subst s1. rewrite accounts_addAccount by done.
  rewrite filter_app, filter_keep_all by done.
  rewrite filter_cons, decide_False by (intros Hn; by apply Hn).
  rewrite filter_nil, app_nil_r.
  unfold setAccounts, setTransactions. cbn. rewrite Hp1, Hinv1, Hr1. by destruct s.
Qed.

Lemma addAccount_deleteAccount_witness :
  deleteAccount (addAccount Sample.busy "a3" "t10" 15 Sample.cash 60) "a3" = Sample.busy.
Proof.
  apply (addAccount_deleteAccount Sample.busy "a3" "t10" 15 Sample.cash 60).
  - vm_compute. split; by repeat constructor.
  - vm_compute. by repeat constructor.
  - apply (reachable_newestFirst plainTx), busy_reachable.
Defined.

(** X10. [updateAccount] does not check that the account exists: for an
    id no account carries, the accounts stay as they are, yet a nonzero
    initial balance still writes an opening-balance transaction for that
    id into the log, while no account with the id is found. *)
Theorem updateAccount_unknown_account s txUuid today updated newInitialBalance :
  Forall (λ acc, Account.id acc ≠ Account.id updated) (accounts s) →
  accounts (updateAccount s txUuid today updated newInitialBalance) = accounts s
  ∧ getAccount (updateAccount s txUuid today updated newInitialBalance)
      (Account.id updated) = None
  ∧ (newInitialBalance ≠ 0 →
     ∃ t, t ∈ transactions (updateAccount s txUuid today updated newInitialBalance)
          ∧ Transaction.accountId t = Account.id updated
          ∧ Transaction.category t = SaldoAwal
          ∧ Transaction.amount t = newInitialBalance).
Proof.
  intros Hunknown.
  assert (accounts (updateAccount s txUuid today updated newInitialBalance)
          = accounts s) as Haccs.
  { unfold updateAccount. cbv zeta. cbn [accounts setAccounts setTransactions].
    rewrite <- (list_fmap_id (accounts s)) at 2.
    apply Forall_fmap_ext. eapply Forall_impl; [exact Hunknown|].
    intros acc Hacc. simpl. by rewrite bool_decide_false by done. }
  split; [done|]. split.
  - unfold getAccount. rewrite Haccs. apply find_None.
    eapply Forall_impl; [exact Hunknown|]. naive_solver.
  - intros Hnz. unfold updateAccount, findIndex. cbv zeta.
    cbn [transactions setAccounts setTransactions].
    setoid_rewrite elem_of_sortTx.
    destruct (list_find _ (transactions s)) as [[i t]|] eqn:Hfind;
      cbn [fmap option_fmap option_map fst].
    + apply list_find_Some in Hfind as (Hi & [Hid Hcat] & _).
      rewrite bool_decide_false by done.
      exists (setAmount t newInitialBalance). split; [|done].
      apply list_elem_of_lookup. exists i.
      rewrite list_lookup_alter_eq, Hi. done.
    + rewrite bool_decide_true by done. eexists. split; [left|done].
Qed.

Lemma updateAccount_unknown_account_witness :
  accounts (updateAccount Sample.opened "t9" 20 (Account.mk "a7" "Hantu" "Bank" 0) 300)
  = accounts Sample.opened
  ∧ length (transactions
              (updateAccount Sample.opened "t9" 20 (Account.mk "a7" "Hantu" "Bank" 0) 300))
    = 2%nat.
Proof.
  split; [|done].
  apply (updateAccount_unknown_account Sample.opened "t9" 20
           (Account.mk "a7" "Hantu" "Bank" 0) 300).
  vm_compute. by repeat constructor.
Defined.

(** X14. [updatePlatform] replaces the stored platform of the same id:
    looking that id up afterwards gives the new record if one was stored
    and nothing otherwise, every other id is looked up as before, and
    for an id no platform carries the store is unchanged. *)
Theorem updatePlatform_lookup s updated :
  getPlatform (updatePlatform s updated) (Platform.id updated)
  = (λ _, updated) <$> getPlatform s (Platform.id updated)
  ∧ (∀ id, id ≠ Platform.id updated →
       getPlatform (updatePlatform s updated) id = getPlatform s id)
  ∧ (Forall (λ p, Platform.id p ≠ Platform.id updated) (platforms s) →
     updatePlatform s updated = s).
Proof.
  set (f := λ p, if bool_decide (Platform.id p = Platform.id updated)
                 then updated else p).
  assert (∀ p, Platform.id (f p) = Platform.id p) as Hid.
  { intros p. unfold f. by case_bool_decide. }
  split; [|split].
  - unfold getPlatform, updatePlatform. cbn [platforms setPlatforms]. fold f.
    rewrite find_fmap by (intros p; by rewrite Hid).
    destruct (find _ (platforms s)) as [p|] eqn:Hfind; [|done].
    apply find_Some_elem in Hfind as [_ Hp]. simpl. unfold f.
    by rewrite bool_decide_true by done.
  - intros id Hne. unfold getPlatform, updatePlatform. cbn [platforms setPlatforms].
    fold f. rewrite find_fmap by (intros p; by rewrite Hid).
    destruct (find _ (platforms s)) as [p|] eqn:Hfind; [|done].
    apply find_Some_elem in Hfind as [_ Hp]. simpl. unfold f.
    rewrite bool_decide_false; [done|]. congruence.
  - intros Hunknown. unfold updatePlatform. fold f.
    replace (f <$> platforms s) with (platforms s); [by destruct s|].
    rewrite <- (list_fmap_id (platforms s)) at 1.
    apply Forall_fmap_ext. eapply Forall_impl; [exact Hunknown|].
    intros p Hp. unfold f. simpl. by rewrite bool_decide_false by done.
Qed.

Lemma updatePlatform_lookup_witness :
  updatePlatform Scenario.withPlatform (Platform.mk "p9" "Ajaib") = Scenario.withPlatform.
Proof.
  apply (updatePlatform_lookup Scenario.withPlatform (Platform.mk "p9" "Ajaib")).
  vm_compute. by repeat constructor.
Defined.

(** ** Sums as [reduce] computes them *)

Lemma foldl_add_acc {A} (f : A → Z) (l : list A) (a : Z) :
  foldl (λ sum x, sum + f x) a l = a + reduceSum f l.
Proof.
  unfold reduceSum. revert a. induction l as [|x l IH]; intros a; simpl; [lia|].
  rewrite (IH (a + f x)), (IH (0 + f x)). lia.
Qed.

Lemma reduceSum_cons {A} (f : A → Z) x l : reduceSum f (x :: l) = f x + reduceSum f l.
Proof. unfold reduceSum at 1. simpl. rewrite foldl_add_acc. lia. Qed.

Lemma reduceSum_fmap {A B} (f : B → Z) (g : A → B) l :
  reduceSum f (g <$> l) = reduceSum (λ x, f (g x)) l.
Proof.
  induction l as [|x l IH]; [done|]. rewrite fmap_cons, !reduceSum_cons. lia.
Qed.

Lemma reduceSum_ext {A} (f g : A → Z) l :
  (∀ x, f x = g x) → reduceSum f l = reduceSum g l.
Proof.
  intros Hfg. induction l as [|x l IH]; [done|]. rewrite !reduceSum_cons, Hfg. lia.
Qed.

Lemma reduceSum_filter {A} (f : A → Z) (P : A → Prop) `{!∀ x, Decision (P x)} l :
  reduceSum f (filter P l) = reduceSum (λ x, if decide (P x) then f x else 0) l.
Proof.
  induction l as [|x l IH]; [done|]. rewrite filter_cons, reduceSum_cons.
  destruct (decide (P x)); [rewrite reduceSum_cons|]; lia.
Qed.

(** ** Further properties of the provider: restricted updates *)

(** X15. [updateInvestment] takes only name, date and platform from its
    argument: the id, funding account, initial value and current value
    of every investment, the accounts and the log stay as they are
    whatever record is passed, so no dashboard total moves; and it
    commutes with [updateInvestmentValue]. *)
Theorem updateInvestment_keeps_financials s updated :
  (λ inv, (Investment.id inv, Investment.accountId inv,
           Investment.initialValue inv, Investment.currentValue inv))
    <$> investments (updateInvestment s updated)
  = (λ inv, (Investment.id inv, Investment.accountId inv,
             Investment.initialValue inv, Investment.currentValue inv))
      <$> investments s
  ∧ accounts (updateInvestment s updated) = accounts s
  ∧ transactions (updateInvestment s updated) = transactions s
  ∧ totalWealth (updateInvestment s updated) = totalWealth s
  ∧ investmentProfitLoss (updateInvestment s updated) = investmentProfitLoss s
  ∧ ∀ id newValue,
      updateInvestmentValue (updateInvestment s updated) id newValue
      = updateInvestment (updateInvestmentValue s id newValue) updated.
Proof.
  split; [|split; [done|split; [done|split; [|split]]]].
  - unfold updateInvestment. cbn [investments setInvestments].
    apply fmap_fmap_same. intros inv. by case_bool_decide.
  - unfold totalWealth, totalInvestmentValue, updateInvestment.
    cbn [investments setInvestments]. rewrite reduceSum_fmap.
    f_equal. f_equal. apply reduceSum_ext. intros inv. by case_bool_decide.
  - unfold investmentProfitLoss, updateInvestment.
    cbn [investments setInvestments]. rewrite reduceSum_fmap.
    apply reduceSum_ext. intros inv. by case_bool_decide.
  - intros id newValue. unfold updateInvestmentValue, updateInvestment.
    cbn [investments setInvestments]. unfold setInvestments. cbn. f_equal.
    rewrite <- !list_fmap_compose. apply list_fmap_ext. intros _ inv _. simpl.
    repeat case_bool_decide; simpl in *; try done.
Qed.

(** X17. [updateReceivable] takes only debtor name and due date from its
    argument: the id, amount, account and status of every receivable,
    the accounts and the log stay as they are whatever record is passed,
    so the total of unpaid receivables and the total wealth do not move;
    for an id no receivable carries the store is unchanged. *)
Theorem updateReceivable_keeps_financials s updated :
  (λ r, (Receivable.id r, Receivable.amount r, Receivable.accountId r,
         Receivable.status r)) <$> receivables (updateReceivable s updated)
  = (λ r, (Receivable.id r, Receivable.amount r, Receivable.accountId r,
           Receivable.status r)) <$> receivables s
  ∧ accounts (updateReceivable s updated) = accounts s
  ∧ transactions (updateReceivable s updated) = transactions s
  ∧ totalUnpaidReceivables (updateReceivable s updated) = totalUnpaidReceivables s
  ∧ totalWealth (updateReceivable s updated) = totalWealth s
  ∧ (Forall (λ r, Receivable.id r ≠ Receivable.id updated) (receivables s) →
     updateReceivable s updated = s).
Proof.
  assert (totalUnpaidReceivables (updateReceivable s updated)
          = totalUnpaidReceivables s) as Hunpaid.
  { unfold totalUnpaidReceivables, updateReceivable.
    cbn [receivables setReceivables]. rewrite !reduceSum_filter, reduceSum_fmap.
    apply reduceSum_ext. intros r. by case_bool_decide. }
  split; [|split; [done|split; [done|split; [done|split]]]].
  - unfold updateReceivable. cbn [receivables setReceivables].
    apply fmap_fmap_same. intros r. by case_bool_decide.
  - unfold totalWealth. by rewrite Hunpaid.
  - intros Hunknown. unfold updateReceivable.
    replace (_ <$> receivables s) with (receivables s); [by destruct s|].
    rewrite <- (list_fmap_id (receivables s)) at 1.
    apply Forall_fmap_ext. eapply Forall_impl; [exact Hunknown|].
    intros r Hr. simpl. by rewrite bool_decide_false by done.
Qed.

Lemma updateReceivable_keeps_financials_witness :
  updateReceivable Scenario.lent
    (Receivable.mk "r9" "Cici" 999 40 "a2" ReceivableStatus.Paid)
  = Scenario.lent.
Proof.
  apply (updateReceivable_keeps_financials Scenario.lent
           (Receivable.mk "r9" "Cici" 999 40 "a2" ReceivableStatus.Paid)).
  vm_compute. by repeat constructor.
Defined.

(** ** The log entries of a stored investment *)

(** X24. In a store reached by calls that pass [plainTx] transactions,
    the log entries linked to a stored investment (source Investment and
    its id) debit its funding account by exactly its initial value and
    touch no other account. *)
Theorem reachable_investment_outflow s inv a :
  reachable plainTx s →
  inv ∈ investments s →
  signedSum a (filter (λ t, Transaction.linkedInvestmentId t = Some (Investment.id inv)
                            ∧ Transaction.source t = TransactionSource.Investment)
                      (transactions s))
  = if bool_decide (Investment.accountId inv = a)
    then - Investment.initialValue inv else 0.
Proof.
  intros Hreach Hin. destruct (reachable_ledgerInv _ Hreach) as [_ _ _ Hback].
  eapply Forall_forall in Hback; [|exact Hin].
  unfold signedSum. rewrite <- (Hback a).
  apply (sumBy_filter_linked (Investment.id inv) a).
Qed.

Lemma investedOps_reachable :
  reachable plainTx
    (runOps emptyStore [ OpAddAccount "a1" "t1" 10 Sample.bank 500;
                         OpAddInvestment "i1" "t3" Sample.saham ]).
Proof.
  apply reachable_runOps; [apply reachable_empty|]. valid_run.
Qed.

Lemma reachable_investment_outflow_witness :
  signedSum "a1"
    (filter (λ t, Transaction.linkedInvestmentId t = Some "i1"
                  ∧ Transaction.source t = TransactionSource.Investment)
            (transactions Sample.invested))
  = -1000.
Proof.
  apply (reachable_investment_outflow Sample.invested
           (Investment.mk "i1" "Saham" 3 "a1" "p1" 1000 1200) "a1").
  - exact investedOps_reachable.
  - vm_compute. by repeat constructor.
Defined.

(** ** Claims that depend on the arithmetic of JavaScript numbers *)






(** C6 (as amended). [addInvestment] with a new id followed at once by
    [deleteInvestment] of it leaves every account other than the funding
    account as it was and the funding account with the balance
    [(b - v) + v] as binary64 arithmetic computes it from its balance [b]
    and the initial value [v]. *)
Theorem addInvestment_deleteInvestment_balance s uuid txUuid txUuid' today investment :
  Forall (λ inv, F64.Investment.id inv ≠ uuid) (F64.investments s) →
  F64.accounts
    (F64.deleteInvestment (F64.addInvestment s uuid txUuid investment) txUuid' today uuid)
  = (λ acc,
       if bool_decide (F64.Account.id acc = F64.Investment.accountId investment)
       then F64.Account.mk (F64.Account.id acc) (F64.Account.name acc)
              (F64.Account.type acc)
              (PrimFloat.add
                 (PrimFloat.sub (F64.Account.balance acc)
                    (F64.Investment.initialValue investment))
                 (F64.Investment.initialValue investment))
       else acc) <$> F64.accounts s.
Proof.
  intros Hfresh. unfold F64.deleteInvestment, F64.addInvestment at 1.
  cbn [F64.investments F64.addTransaction].
  rewrite find_app_fresh; [|eapply Forall_impl; [exact Hfresh|]; naive_solver|done].
  cbn [F64.accounts F64.addTransaction F64.addInvestment].
  rewrite <- list_fmap_compose. apply list_fmap_ext. intros _ acc _. simpl.
  unfold F64.applyTransaction. simpl.
  destruct (decide (F64.Account.id acc = F64.Investment.accountId investment))
    as [Heq|Hne].
  - rewrite !(bool_decide_true (F64.Account.id acc = _)) by done. simpl.
    by rewrite ?bool_decide_true by done.
  - rewrite !(bool_decide_false (F64.Account.id acc = _)) by done.
    by rewrite ?bool_decide_false by done.
Qed.

Lemma addInvestment_deleteInvestment_balance_witness :
  F64.accounts
    (F64.deleteInvestment (F64.addInvestment F64.twoAccounts "i1" "t3" (F64.saham 1000))
       "t9" 20 "i1")
  = F64.accounts F64.twoAccounts.
Proof.
  rewrite (addInvestment_deleteInvestment_balance F64.twoAccounts "i1" "t3" "t9" 20
             (F64.saham 1000)).
  - vm_compute. reflexivity.
  - vm_compute. constructor.
Defined.

(** C6, as stated for every value, fails on JavaScript numbers: an account
    holding 1 from which 9007199254740994 is invested and the investment
    deleted at once ends at 2, since 1 - 9007199254740994 rounds to
    -9007199254740992; and an account holding 0.1 ends at
    0.09999999999999998 after 0.7 is invested and returned. *)
Lemma invest_round_trip_not_exact :
  F64.Account.balance <$>
    F64.accounts
      (F64.deleteInvestment
         (F64.addInvestment F64.small "i1" "t3" (F64.saham 9007199254740994))
         "t9" 20 "i1")
  = [2%float]
  ∧ PrimFloat.eqb 2 1 = false
  ∧ PrimFloat.eqb
      (PrimFloat.add (PrimFloat.sub (PrimFloat.div 1 10) (PrimFloat.div 7 10))
         (PrimFloat.div 7 10))
      (PrimFloat.div 1 10) = false.
Proof. repeat split; vm_compute; reflexivity. Qed.

(** ** [updateAccount] and the opening-balance entry *)



(** ** The balance invariant and the two ways the code computes a balance *)

(** C1. The code breaks the invariant on an input the pages can produce.
    Account "a1" is opened with 500; the transactions page saves an
    expense of 100 on it under the free-text category "Saldo Awal"
    ([addTransaction] patches the balance to 400, the signed sum of the
    log); a receivable of 200 is added and deleted again.  The log is then
    the one from before the receivable, with signed sum 400, but the replay
    of [deleteReceivable] has taken the expense as the opening balance and
    skipped the real one: the balance is 100. *)
Theorem replay_contradicts_patch :
  let typed := Sample.manual TransactionType.Expense "a1" None 100 "Saldo Awal" in
  let s1 := handleSave Sample.opened "t2" typed in
  let s2 := addReceivable s1 "r1" "t3" 11 Sample.budi in
  let s3 := deleteReceivable s2 "r1" in
  (Account.balance <$> accounts s1 = [400] ∧ signedSum "a1" (transactions s1) = 400)
  ∧ (Account.balance <$> accounts s2 = [200] ∧ signedSum "a1" (transactions s2) = 200)
  ∧ transactions s3 = transactions s1
  ∧ (Account.balance <$> accounts s3 = [100] ∧ signedSum "a1" (transactions s3) = 400)
  ∧ ¬ balancesConsistent s3.
Proof.
  repeat split; try (vm_compute; reflexivity).
  intros Hbal. apply Forall_cons in Hbal as [Hbal _]. by vm_compute in Hbal.
Qed.

(** ** Further properties of the provider: what the receivable operations keep *)

Lemma accountFields_deleteReceivable s id :
  (λ acc, (Account.id acc, Account.name acc, Account.type acc))
    <$> accounts (deleteReceivable s id)
  = (λ acc, (Account.id acc, Account.name acc, Account.type acc)) <$> accounts s.
Proof.
  unfold deleteReceivable. cbn [accounts setAccounts]. by apply fmap_fmap_same.
Qed.

Lemma accountFields_addTransaction s uuid tx :
  (λ acc, (Account.id acc, Account.name acc, Account.type acc))
    <$> accounts (addTransaction s uuid tx)
  = (λ acc, (Account.id acc, Account.name acc, Account.type acc)) <$> accounts s.
Proof.
  unfold addTransaction. cbn [accounts setAccounts setTransactions].
  apply fmap_fmap_same. intros acc. unfold applyTransaction.
  repeat case_bool_decide; try done. by destruct (Transaction.type _).
Qed.



(** X4. Round trip on the records: [addReceivable] with an id that no
    receivable carries and no transaction is linked to, followed by
    [deleteReceivable] of that id, on a log ordered newest first, gives
    back the receivables and the log it started from, leaves platforms and
    investments alone and keeps the id, name and type of every account. *)
Theorem addReceivable_deleteReceivable s uuid txUuid today receivable :
  newestFirst (transactions s) →
  Forall (λ r, Receivable.id r ≠ uuid) (receivables s) →
  Forall (λ t, Transaction.linkedReceivableId t ≠ Some uuid) (transactions s) →
  let s' := deleteReceivable (addReceivable s uuid txUuid today receivable) uuid in
  receivables s' = receivables s
  ∧ transactions s' = transactions s
  ∧ platforms s' = platforms s
  ∧ investments s' = investments s
  ∧ (λ acc, (Account.id acc, Account.name acc, Account.type acc)) <$> accounts s'
    = (λ acc, (Account.id acc, Account.name acc, Account.type acc)) <$> accounts s.
Proof.
  intros Hsorted Hrs Hlog s'. subst s'.
  split; [|split; [|split; [done|split; [done|]]]].
  - unfold deleteReceivable, addReceivable, addTransaction. cbv zeta.
    cbn [receivables setTransactions setAccounts setReceivables].
    rewrite filter_app, (filter_keep_all _ (receivables s)) by done.
    rewrite filter_cons, decide_False by (intros Hn; by apply Hn).
    by rewrite filter_nil, app_nil_r.
  - unfold deleteReceivable, addReceivable, addTransaction. cbv zeta.
    cbn [transactions setTransactions setAccounts setReceivables].
    rewrite sortTx_cons, (sortTx_id (transactions s)) by done.
    rewrite filter_insertTx_out by (intros Hn; by apply Hn).
    rewrite (filter_keep_all _ (transactions s)) by done.
    by apply sortTx_id.
  - rewrite accountFields_deleteReceivable. unfold addReceivable.
    by rewrite accountFields_addTransaction.
Qed.

Lemma addReceivable_deleteReceivable_witness :
  transactions (deleteReceivable (addReceivable Sample.busy "r2" "t10" 15 Sample.budi) "r2")
  = transactions Sample.busy
  ∧ receivables (deleteReceivable (addReceivable Sample.busy "r2" "t10" 15 Sample.budi) "r2")
    = receivables Sample.busy.
Proof.
  pose proof (addReceivable_deleteReceivable Sample.busy "r2" "t10" 15 Sample.budi)
    as Hback.
  destruct Hback as (Hrs & Hlog & _).
  - apply (reachable_newestFirst plainTx), busy_reachable.
  - vm_compute. by repeat constructor.
  - vm_compute. by repeat constructor.
  - by rewrite Hrs, Hlog.
Defined.

(** X5. [addReceivable] with a new id followed by [markReceivableAsPaid]
    of it stores the receivable as Paid with the fields it was given, adds
    exactly two transactions to the log, keeps the id, name and type of
    every account, and leaves every account other than the lending and the
    receiving one exactly as it was. *)
Theorem addReceivable_markReceivableAsPaid s uuid txUuid txUuid' today today'
    receivable accountId :
  Forall (λ r, Receivable.id r ≠ uuid) (receivables s) →
  let s' := markReceivableAsPaid (addReceivable s uuid txUuid today receivable)
              txUuid' today' uuid accountId in
  find (λ r, Receivable.id r = uuid) (receivables s')
  = Some (Receivable.mk uuid (Receivable.debtorName receivable)
            (Receivable.amount receivable) (Receivable.dueDate receivable)
            (Receivable.accountId receivable) ReceivableStatus.Paid)
  ∧ length (transactions s') = S (S (length (transactions s)))
  ∧ (λ acc, (Account.id acc, Account.name acc, Account.type acc)) <$> accounts s'
    = (λ acc, (Account.id acc, Account.name acc, Account.type acc)) <$> accounts s
  ∧ filter (λ acc, Account.id acc ≠ Receivable.accountId receivable
                   ∧ Account.id acc ≠ accountId) (accounts s')
    = filter (λ acc, Account.id acc ≠ Receivable.accountId receivable
                     ∧ Account.id acc ≠ accountId) (accounts s).
Proof.
  intros Hfresh s'. subst s'.
  set (new := Receivable.mk uuid (Receivable.debtorName receivable)
                (Receivable.amount receivable) (Receivable.dueDate receivable)
                (Receivable.accountId receivable) ReceivableStatus.Unpaid).
  set (s1 := addReceivable s uuid txUuid today receivable).
  assert (receivables s1 = (receivables s ++ [new])%list) as Hrs by done.
  assert (find (λ r, Receivable.id r = uuid) (receivables s1) = Some new) as Hfind.
  { rewrite Hrs. apply find_app_fresh; [|done].
    eapply Forall_impl; [exact Hfresh|]. by intros r Hr Hr'. }
  unfold markReceivableAsPaid. rewrite Hfind. split; [|split; [|split]].
  - cbn [receivables addTransaction setTransactions setAccounts setReceivables].
    rewrite Hrs, fmap_app.
    replace ((λ r, if bool_decide (Receivable.id r = uuid)
                   then setStatus r ReceivableStatus.Paid else r) <$> [new])
      with [setStatus new ReceivableStatus.Paid]
      by (simpl; by rewrite bool_decide_true by done).
    apply (find_app_fresh (λ r, Receivable.id r = uuid)); [|done].
    apply Forall_fmap. eapply Forall_impl; [exact Hfresh|].
    intros r Hr. simpl. by rewrite bool_decide_false by done.
  - cbn [transactions addTransaction setTransactions setAccounts setReceivables].
    rewrite (Permutation_length (sortTx_perm _)). simpl. f_equal.
    subst s1. unfold addReceivable.
    cbn [transactions addTransaction setTransactions setAccounts setReceivables].
    by rewrite (Permutation_length (sortTx_perm _)).
  - rewrite accountFields_addTransaction. subst s1. unfold addReceivable.
    cbn [accounts setReceivables]. by rewrite accountFields_addTransaction.
  - cbn [accounts addTransaction setTransactions setAccounts setReceivables].
    subst s1. unfold addReceivable.
    cbn [accounts addTransaction setTransactions setAccounts setReceivables].
    rewrite <- list_fmap_compose.
    induction (accounts s) as [|acc accs IH]; [done|].
    rewrite fmap_cons, !filter_cons, IH. simpl.
    unfold applyTransaction. simpl.
    repeat case_bool_decide; simpl; repeat case_decide; try done;
      exfalso; tauto.
Qed.

Lemma addReceivable_markReceivableAsPaid_witness :
  find (λ r, Receivable.id r = "r1")
    (receivables (markReceivableAsPaid
                    (addReceivable Sample.opened "r1" "t4" 11 Sample.budi)
                    "t5" 12 "r1" "a1"))
  = Some (Receivable.mk "r1" "Budi" 200 30 "a1" ReceivableStatus.Paid).
Proof.
  apply (addReceivable_markReceivableAsPaid Sample.opened "r1" "t4" "t5" 11 12
           Sample.budi "a1").
  vm_compute. constructor.
Defined.

(** X13. What the transactions page saves is recorded with source Manual
    whatever the form data carries, a linkedInvestmentId included; so the
    record it adds to the log is still there after any [deleteInvestment],
    whose filter removes only records of source Investment. *)
Theorem handleSave_survives_deleteInvestment s uuid transactionData txUuid today id :
  let saved :=
    Transaction.mk uuid (Transaction.date transactionData)
      (Transaction.type transactionData) (Transaction.accountId transactionData)
      (Transaction.toAccountId transactionData) (Transaction.amount transactionData)
      (Transaction.category transactionData) (Transaction.description transactionData)
      TransactionSource.Manual (Transaction.linkedInvestmentId transactionData)
      (Transaction.linkedReceivableId transactionData) in
  saved ∈ transactions (handleSave s uuid transactionData)
  ∧ saved ∈ transactions (deleteInvestment (handleSave s uuid transactionData)
                            txUuid today id).
Proof.
  intros saved.
  assert (saved ∈ transactions (handleSave s uuid transactionData)) as Hin.
  { unfold handleSave, addTransaction.
    cbn [transactions setAccounts setTransactions].
    apply elem_of_sortTx. by left. }
  split; [done|]. unfold deleteInvestment.
  destruct (find _ (investments (handleSave s uuid transactionData))); [|done].
  cbv zeta. cbn [transactions setTransactions setInvestments].
  apply list_elem_of_filter. split; [by intros [_ ?]|].
  unfold addTransaction at 1. cbn [transactions setAccounts setTransactions].
  apply elem_of_sortTx. by right.
Qed.

(** X16. [updateInvestmentValue] changes nothing but the current value of
    the investments carrying the id: every other field of every
    investment, the investments of other ids, the accounts and the log
    stay as they are, the investments of that id get the new value, and
    for an id no investment carries the store is unchanged. *)
Theorem updateInvestmentValue_only_value s id newValue :
  (λ inv, (Investment.id inv, Investment.name inv, Investment.date inv,
           Investment.accountId inv, Investment.platformId inv,
           Investment.initialValue inv))
    <$> investments (updateInvestmentValue s id newValue)
  = (λ inv, (Investment.id inv, Investment.name inv, Investment.date inv,
             Investment.accountId inv, Investment.platformId inv,
             Investment.initialValue inv)) <$> investments s
  ∧ Forall (λ inv, Investment.id inv = id → Investment.currentValue inv = newValue)
           (investments (updateInvestmentValue s id newValue))
  ∧ filter (λ inv, Investment.id inv ≠ id) (investments (updateInvestmentValue s id newValue))
    = filter (λ inv, Investment.id inv ≠ id) (investments s)
  ∧ accounts (updateInvestmentValue s id newValue) = accounts s
  ∧ transactions (updateInvestmentValue s id newValue) = transactions s
  ∧ (Forall (λ inv, Investment.id inv ≠ id) (investments s) →
     updateInvestmentValue s id newValue = s).
Proof.
  split; [|split; [|split; [|split; [done|split; [done|]]]]].
  - unfold updateInvestmentValue. cbn [investments setInvestments].
    apply fmap_fmap_same. intros inv. by case_bool_decide.
  - unfold updateInvestmentValue. cbn [investments setInvestments].
    apply Forall_fmap, Forall_forall. intros inv _. simpl.
    case_bool_decide; simpl; [done|]. by intros ?.
  - unfold updateInvestmentValue. cbn [investments setInvestments].
    induction (investments s) as [|inv invs IH]; [done|].
    rewrite fmap_cons, !filter_cons, IH.
    case_bool_decide as Hid; simpl.
    + rewrite !decide_False; [done|by intros Hn|by intros Hn].
    + by rewrite !decide_True by done.
  - intros Hunknown. unfold updateInvestmentValue.
    replace (_ <$> investments s) with (investments s); [by destruct s|].
    rewrite <- (list_fmap_id (investments s)) at 1.
    apply Forall_fmap_ext. eapply Forall_impl; [exact Hunknown|].
    intros i Hi. simpl. by rewrite bool_decide_false by done.
Qed.

Lemma updateInvestmentValue_only_value_witness :
  updateInvestmentValue Scenario.withPlatform "i9" 1500 = Scenario.withPlatform.
Proof.
  apply (updateInvestmentValue_only_value Scenario.withPlatform "i9" 1500).
  vm_compute. by repeat constructor.
Defined.
